(** * Taiwan township population map: selection store, statistics, colour
    buckets, export and bar charts.

    Shallow embedding of [src/barplots.js] (the [BarPlots] module and the
    Leaflet application that follows it in the same file).

    Conventions of the embedding:
    - a JavaScript number that may carry a fraction (area, density,
      latitude, pixel sizes) is carried by the rational [Q] it stands
      for; a population and a timestamp are integers [Z].  The sums and
      quotients of [updateStats], [getAverageLatitude] and
      [updateCountyButtons] are IEEE 754 double-precision operations
      ([fl_add], [fl_div], built on [SpecFloat] with 53 bits of precision):
      every operand is read as the nearest double, as [JSON.parse] reads
      a decimal literal, and the result is rounded to nearest, ties to
      even.  Comparisons, [Math.round] and the pixel geometry of
      [renderChart] work on the rationals themselves.  Overflow to an
      infinity is outside the model ([Number_value] reads it as 0); it
      needs magnitudes near 1.8e308;
    - [state.selectedTownships], a JavaScript [Set], is the list of its
      members in insertion order (what [forEach] iterates over); [add]
      appends a new member at the end and [delete] removes it;
    - [state.populationData], a JavaScript object used as a dictionary, is
      a [gmap string PopData];
    - [state.townshipLayers] maps a full name to the path style of its
      Leaflet layer; the stacking order changed by [bringToFront] and
      [bringSelectedToFront] is not part of the model, so no statement
      below speaks about which layer is drawn on top;
    - the page elements written by the update functions and by the hover
      handlers are fields of [Page]; the info box holds the properties
      of the feature it was last filled from and its [display] flag;
      locale formatting ([toLocaleString], [toFixed]) and the HTML of the
      list and county-button panels are left out. *)

From Stdlib Require Import ZArith QArith Qround Lqa String List Lia.
From Stdlib Require Import Floats.SpecFloat.
From stdpp Require Import base gmap strings list sets sorting.

Open Scope string_scope.
Open Scope Z_scope.

(** ** Data model *)

(** A record of [population_data.json]. *)
Record PopData := mkPopData {
  population : Z;
  area : Q;
  density : Q
}.

(** The properties of a GeoJSON feature after [loadData] merged the
    population record into them; the three merged fields stay undefined
    ([None]) when there is no record. *)
Record Feature := mkFeature {
  FULLNAME : string;
  COUNTYNAME : string;
  TOWNNAME : string;
  f_population : option Z;
  f_area : option Q;
  f_density : option Q
}.

(** Leaflet path options set by [styleFeature] and [setStyle]. *)
Record PathStyle := mkPathStyle {
  fillColor : string;
  weight : Z;
  opacity : Q;
  color : string;
  fillOpacity : Q
}.

Record Border := mkBorder {
  b_weight : Z;
  b_color : string;
  b_opacity : Q
}.

Definition BORDER_UNSELECTED : Border := mkBorder 1 "#cccccc" (8 # 10).
Definition BORDER_SELECTED : Border := mkBorder 3 "#000000" 1.

Definition DOUBLE_CLICK_THRESHOLD : Z := 300.

(** One datum handed to [BarPlots.update]. *)
Record BarDatum := mkBarDatum {
  d_name : string;
  d_population : Z;
  d_density : Q;
  d_area : Q
}.

Inductive Overflow := OverflowAuto | OverflowHidden.

(** What [renderChart] leaves in a chart container. *)
Inductive ChartView :=
| LoadingText
| PlaceholderText
| EmptyContainer
| BarChart (overflow_x : Overflow)
           (chartInnerWidth chartSvgWidth effectiveHeight : Q)
           (bars : list BarDatum).

(** The private state of the [BarPlots] module together with the content of
    its two containers. *)
Record BarPlots := mkBarPlots {
  initialized : bool;
  lastData : list BarDatum;
  density_bar_plot : ChartView;
  population_bar_plot : ChartView
}.

(** The element [#map-info-box], which the page is taken to have like
    the other elements: the feature properties [updateInfoBox] last
    rendered into it ([None] before the first hover) and whether it is
    displayed ([display: block] or [none]). *)
Record InfoBox := mkInfoBox {
  info_props : option Feature;
  info_display : bool
}.

(** The page elements the application writes. *)
Record Page := mkPage {
  stat_count : nat * nat;
  summary_stats_display : bool;
  stat_population : Z;
  stat_area : Z;
  stat_density : Z;
  btn_export_disabled : bool;
  charts : BarPlots;
  map_info_box : InfoBox
}.

(** The global [state] object (mutable part) and the page. *)
Record State := mkState {
  selectedTownships : list string;
  townshipLayers : gmap string PathStyle;
  lastClickTime : Z;
  lastClickedTownship : option string;
  page : Page
}.

(** What is fixed once the application has started: the merged dataset, and
    the environment of the bar charts (whether D3 is loaded, and the
    bounding box of each chart container when the container exists). *)
Record Env := mkEnv {
  features : list Feature;
  populationData : gmap string PopData;
  d3_defined : bool;
  density_container : option (Q * Q);
  population_container : option (Q * Q)
}.

Definition totalTownships (env : Env) : nat := length (features env).

(** ** JavaScript numbers

    A finite double is [S754_finite s m e], the number [(-1)^s * m * 2^e].
    [Number_of q] is the double nearest to the rational [q], ties to even:
    the correctly rounded quotient of the numerator by the denominator. *)
Definition prec : Z := 53.
Definition emax : Z := 1024.

Definition Number_of (q : Q) : spec_float :=
  match Qnum q with
  | Z0 => S754_zero false
  | Zpos n =>
      SFdiv prec emax (S754_finite false n 0) (S754_finite false (Qden q) 0)
  | Zneg n =>
      SFdiv prec emax (S754_finite true n 0) (S754_finite false (Qden q) 0)
  end.

(** The rational a finite double stands for. *)
Definition Number_value (x : spec_float) : Q :=
  match x with
  | S754_finite s m e =>
      let n := if s then Zneg m else Zpos m in
      match e with
      | Z0 => inject_Z n
      | Zpos k => inject_Z (n * 2 ^ Zpos k)
      | Zneg k => n # (2 ^ k)
      end
  | _ => 0%Q
  end.

(** [a + b] and [a / b] on doubles. *)
Definition fl_add (a b : Q) : Q :=
  Number_value (SFadd prec emax (Number_of a) (Number_of b)).

Definition fl_div (a b : Q) : Q :=
  Number_value (SFdiv prec emax (Number_of a) (Number_of b)).

(** [array.reduce((a, b) => a + b, 0)], and the running total of a
    [forEach] loop that starts from 0. *)
Definition fl_sum (l : list Q) : Q := foldl fl_add 0%Q l.

(** ** JavaScript [Set] of strings, in insertion order *)

Definition Set_has (s : list string) (x : string) : bool :=
  bool_decide (x ∈ s).

Definition Set_add (x : string) (s : list string) : list string :=
  if Set_has s x then s else s ++ [x].

Definition Set_delete (x : string) (s : list string) : list string :=
  filter (λ y, y ≠ x) s.

(** The selection as a finite set. *)
Definition selection (st : State) : gset string :=
  list_to_set (selectedTownships st).

(** ** Colour buckets *)

Definition COLOR_GRADES : list Z :=
  [0; 10; 500; 1000; 2000; 5000; 10000; 20000; 30000].

Definition COLOR_PALETTE : list string :=
  ["#ffffff"; "#f9ece8"; "#f3d9d1"; "#e8bfb1"; "#d9a08c";
   "#ca8167"; "#bb6242"; "#aa4c2c"; "#aa4c2c"].

(** [density >= COLOR_GRADES[i]]. *)
Definition grade_reached (d : Q) (i : nat) : bool :=
  match COLOR_GRADES !! i with
  | Some g => Qle_bool (inject_Z g) d
  | None => false
  end.

(** The loop of [getColor]: [n] is [i + 1]; the result is the index at which
    the loop returns, or [None] when it runs through. *)
Fixpoint getColor_loop (d : Q) (n : nat) : option nat :=
  match n with
  | O => None
  | S i => if grade_reached d i then Some i else getColor_loop d i
  end.

Definition palette (i : nat) : string := default "" (COLOR_PALETTE !! i).

Definition getColor_index (d : Q) : nat :=
  default 0%nat (getColor_loop d (length COLOR_GRADES)).

Definition getColor (d : Q) : string :=
  match getColor_loop d (length COLOR_GRADES) with
  | Some i => palette i
  | None => palette 0
  end.


(** ** Loading and map style *)

(** The merge step of [loadData]: a feature with a population record gets
    its three fields, any other feature is left as it is. *)
Definition mergeFeature (pd : gmap string PopData) (f : Feature) : Feature :=
  match pd !! FULLNAME f with
  | Some popData =>
      mkFeature (FULLNAME f) (COUNTYNAME f) (TOWNNAME f)
                (Some (population popData)) (Some (area popData))
                (Some (density popData))
  | None => f
  end.

Definition loadData_merge (pd : gmap string PopData) (geo : list Feature)
  : list Feature :=
  mergeFeature pd <$> geo.

(** [density || 0] on a possibly undefined number. *)
Definition or_zero (d : option Q) : Q :=
  match d with
  | Some q => if Qeq_bool q 0 then 0%Q else q
  | None => 0%Q
  end.

Definition styleFeature (st : State) (f : Feature) : PathStyle :=
  let isSelected := Set_has (selectedTownships st) (FULLNAME f) in
  let density := or_zero (f_density f) in
  let b := if isSelected then BORDER_SELECTED else BORDER_UNSELECTED in
  mkPathStyle (getColor density) (b_weight b) (b_opacity b) (b_color b) (8 # 10).

(** [layer.setStyle({weight, color, opacity})]. *)
Definition setStyle_border (b : Border) (s : PathStyle) : PathStyle :=
  mkPathStyle (fillColor s) (b_weight b) (b_opacity b) (b_color b) (fillOpacity s).

(** [layer.setStyle({weight: 2, color: '#666'})]. *)
Definition setStyle_hover (s : PathStyle) : PathStyle :=
  mkPathStyle (fillColor s) 2 (opacity s) "#666" (fillOpacity s).

(** [createGeoJSONLayer]: one layer per feature, styled by [styleFeature]
    and registered by [onEachFeature]. *)
Definition createGeoJSONLayer (env : Env) (st : State) : State :=
  mkState (selectedTownships st)
          (foldl (λ m f, <[FULLNAME f := styleFeature st f]> m)
                 (townshipLayers st) (features env))
          (lastClickTime st) (lastClickedTownship st) (page st).

(** ** Bar charts ([BarPlots]) *)

Inductive ChartType := DensityChart | PopulationChart.

Definition maxVisibleBars : nat := 15.
Definition margin_top : Q := 20.
Definition margin_right : Q := 20.
Definition margin_left : Q := 60.
Definition bottomMargin : Q := 70.
Definition scrollbarHeight : Q := 14.

Definition Qlt_bool (a b : Q) : bool := negb (Qle_bool b a).

(** [renderChart(containerId, data, type)]; [box] is the bounding box of the
    container, [None] when the element is missing, and [old] what the
    container held.  A chart with bars is recorded by what is rendered:
    the [overflow-x] of the scroll container, the range of the band scale
    ([chartInnerWidth]), and the width and height attributes of the chart
    SVG.  The local [svgWidth] of the source is never rendered and has no
    counterpart here. *)
Definition renderChart (box : option (Q * Q)) (data : list BarDatum)
    (old : ChartView) : ChartView :=
  match box with
  | None => old
  | Some (containerWidth, containerHeight) =>
      if Qle_bool containerWidth 0 || Qle_bool containerHeight 0 then LoadingText
      else if bool_decide (length data = 0%nat) then PlaceholderText
      else
        let numBars := length data in
        let needsScroll := (maxVisibleBars <? numBars)%nat in
        let chartInnerWidth :=
          if needsScroll then
            let visibleInnerWidth := (containerWidth - margin_left - margin_right)%Q in
            let barWidthWithPadding :=
              (visibleInnerWidth / inject_Z (Z.of_nat maxVisibleBars))%Q in
            (barWidthWithPadding * inject_Z (Z.of_nat numBars))%Q
          else
            (containerWidth - margin_left - margin_right)%Q in
        let effectiveHeight :=
          if needsScroll then (containerHeight - scrollbarHeight)%Q
          else containerHeight in
        let innerHeight := (effectiveHeight - margin_top - bottomMargin)%Q in
        if Qle_bool innerHeight 0 then EmptyContainer
        else
          let chartSvgWidth := (chartInnerWidth + margin_right)%Q in
          BarChart (if needsScroll then OverflowAuto else OverflowHidden)
                   chartInnerWidth chartSvgWidth effectiveHeight data
  end.

Definition BarPlots_init (env : Env) (bp : BarPlots) : BarPlots :=
  if initialized bp then bp
  else if negb (d3_defined env) then bp
  else
    match density_container env, population_container env with
    | Some _, Some _ =>
        mkBarPlots true (lastData bp)
          (renderChart (density_container env) [] (density_bar_plot bp))
          (renderChart (population_container env) [] (population_bar_plot bp))
    | _, _ => bp
    end.

(** [Array.prototype.sort] with a comparator: a stable sort.  [insert_by]
    puts [x], which stood before every element of [l], in front of the
    first element that the comparator does not order before it. *)
Fixpoint insert_by {A} (cmp : A → A → Q) (x : A) (l : list A) : list A :=
  match l with
  | [] => [x]
  | y :: l' => if Qlt_bool 0 (cmp x y) then y :: insert_by cmp x l' else x :: l
  end.

Definition Array_sort {A} (cmp : A → A → Q) (l : list A) : list A :=
  foldr (insert_by cmp) [] l.

Definition by_density (a b : BarDatum) : Q := (d_density b - d_density a)%Q.
Definition by_population (a b : BarDatum) : Q :=
  inject_Z (d_population b - d_population a).

Definition BarPlots_update (env : Env) (data : list BarDatum) (bp : BarPlots)
  : BarPlots :=
  let bp1 := if initialized bp then bp else BarPlots_init env bp in
  if negb (initialized bp1) then bp1
  else
    let densityData := Array_sort by_density data in
    let populationData := Array_sort by_population data in
    mkBarPlots true data
      (renderChart (density_container env) densityData (density_bar_plot bp1))
      (renderChart (population_container env) populationData
                   (population_bar_plot bp1)).

(** ** UI updates *)

Definition set_page (p : Page) (st : State) : State :=
  mkState (selectedTownships st) (townshipLayers st) (lastClickTime st)
          (lastClickedTownship st) p.

(** [Math.round]: the nearest integer, a half going up. *)
Definition Math_round (x : Q) : Z := Qfloor (x + (1 # 2)).

(** The accumulation loop of [updateStats] over the selection:
    [totalPopulation += data.population; totalArea += data.area]. *)
Definition stats_step (env : Env) (acc : Z * Q) (fullname : string) : Z * Q :=
  match populationData env !! fullname with
  | Some data => (acc.1 + population data, fl_add acc.2 (area data))
  | None => acc
  end.

Definition stats_totals (env : Env) (sel : list string) : Z * Q :=
  foldl (stats_step env) (0, 0%Q) sel.

Definition avgDensity (totalPopulation : Z) (totalArea : Q) : Z :=
  if Qlt_bool 0 totalArea
  then Math_round (fl_div (inject_Z totalPopulation) totalArea)
  else 0.

Definition updateStats (env : Env) (st : State) : State :=
  let p := page st in
  let count := length (selectedTownships st) in
  if (0 <? count)%nat then
    let '(totalPopulation, totalArea) := stats_totals env (selectedTownships st) in
    set_page (mkPage (count, totalTownships env) true
                     totalPopulation (Math_round totalArea)
                     (avgDensity totalPopulation totalArea)
                     (btn_export_disabled p) (charts p) (map_info_box p)) st
  else
    set_page (mkPage (count, totalTownships env) false
                     (stat_population p) (stat_area p) (stat_density p)
                     (btn_export_disabled p) (charts p) (map_info_box p)) st.

Definition updateExportButton (st : State) : State :=
  let p := page st in
  set_page (mkPage (stat_count p) (summary_stats_display p) (stat_population p)
                   (stat_area p) (stat_density p)
                   (bool_decide (length (selectedTownships st) = 0%nat))
                   (charts p) (map_info_box p)) st.

(** The data [updateBarPlots] prepares: one datum per selected name that
    has a population record, in selection order. *)
Definition selectedData (env : Env) (sel : list string) : list BarDatum :=
  foldl (λ acc fullname,
           match populationData env !! fullname with
           | Some data =>
               (acc ++ [mkBarDatum fullname (population data) (density data)
                                   (area data)])%list
           | None => acc
           end) [] sel.

(** The datum of a selected name that has a population record. *)
Definition datum_of (env : Env) (fullname : string) : option BarDatum :=
  match populationData env !! fullname with
  | Some data =>
      Some (mkBarDatum fullname (population data) (density data) (area data))
  | None => None
  end.

(** Bars in descending order of a key. *)
Definition descending {A} (key : A → Q) (l : list A) : Prop :=
  StronglySorted (λ a b, (key b <= key a)%Q) l.

(** The two layouts of a chart with bars: all bars fitted to the width of
    the container, or a fixed width per bar (one fifteenth of the visible
    width) with horizontal scrolling. *)
Definition fitted_chart (w h : Q) (bars : list BarDatum) : ChartView :=
  let inner := (w - margin_left - margin_right)%Q in
  BarChart OverflowHidden inner (inner + margin_right)%Q h bars.

Definition scrolling_chart (w h : Q) (bars : list BarDatum) : ChartView :=
  let inner :=
    ((w - margin_left - margin_right) / inject_Z (Z.of_nat maxVisibleBars)
     * inject_Z (Z.of_nat (length bars)))%Q in
  BarChart OverflowAuto inner (inner + margin_right)%Q
           (h - scrollbarHeight)%Q bars.

Definition updateBarPlots (env : Env) (st : State) : State :=
  let p := page st in
  set_page (mkPage (stat_count p) (summary_stats_display p) (stat_population p)
                   (stat_area p) (stat_density p) (btn_export_disabled p)
                   (BarPlots_update env (selectedData env (selectedTownships st))
                                    (charts p))
                   (map_info_box p)) st.

Definition updateUI (env : Env) (st : State) : State :=
  updateBarPlots env (updateExportButton (updateStats env st)).

(** ** Selection management *)

Definition set_selection (sel : list string) (layers : gmap string PathStyle)
    (st : State) : State :=
  mkState sel layers (lastClickTime st) (lastClickedTownship st) (page st).

Definition selectTownship (env : Env) (fullname : string) (updateUIFlag : bool)
    (st : State) : State :=
  let st1 :=
    set_selection (Set_add fullname (selectedTownships st))
                  (alter (setStyle_border BORDER_SELECTED) fullname
                         (townshipLayers st)) st in
  if updateUIFlag then updateUI env st1 else st1.

Definition deselectTownship (env : Env) (fullname : string)
    (updateUIFlag : bool) (st : State) : State :=
  let st1 :=
    set_selection (Set_delete fullname (selectedTownships st))
                  (alter (setStyle_border BORDER_UNSELECTED) fullname
                         (townshipLayers st)) st in
  if updateUIFlag then updateUI env st1 else st1.

Definition clearAllSelections (env : Env) (st : State) : State :=
  let layers :=
    foldl (λ m fullname, alter (setStyle_border BORDER_UNSELECTED) fullname m)
          (townshipLayers st) (selectedTownships st) in
  updateUI env (set_selection [] layers st).

Definition selectAllTownships (env : Env) (st : State) : State :=
  updateUI env
    (foldl (λ s f, selectTownship env (FULLNAME f) false s) st (features env)).

Definition countyTownships (env : Env) (countyName : string) : list string :=
  FULLNAME <$> filter (λ f, COUNTYNAME f = countyName) (features env).

Definition county_set (env : Env) (countyName : string) : gset string :=
  list_to_set (countyTownships env countyName).

Definition allSelected (env : Env) (countyName : string) (st : State) : bool :=
  forallb (Set_has (selectedTownships st)) (countyTownships env countyName).

Definition selectCounty (env : Env) (countyName : string) (st : State) : State :=
  let names := countyTownships env countyName in
  let st1 :=
    if allSelected env countyName st then
      foldl (λ s name, deselectTownship env name false s) st names
    else
      foldl (λ s name,
               if Set_has (selectedTownships s) name then s
               else selectTownship env name false s) st names in
  updateUI env st1.

Definition removeTownshipFromList (env : Env) (fullname : string) (st : State)
  : State :=
  deselectTownship env fullname true st.

(** ** Event handlers *)

(** [handleClick]; [fullname] is the clicked layer's feature name and
    [currentTime] the value of [Date.now()]. *)
Definition handleClick (env : Env) (fullname : string) (currentTime : Z)
    (st : State) : State :=
  if bool_decide (lastClickedTownship st = Some fullname)
     && (currentTime - lastClickTime st <? DOUBLE_CLICK_THRESHOLD)
  then st
  else
    let st1 := mkState (selectedTownships st) (townshipLayers st) currentTime
                       (Some fullname) (page st) in
    if negb (Set_has (selectedTownships st1) fullname)
    then selectTownship env fullname true st1
    else st1.

Definition handleDoubleClick (env : Env) (fullname : string) (st : State)
  : State :=
  if Set_has (selectedTownships st) fullname
  then deselectTownship env fullname true st
  else st.

(** The properties of the feature behind the layer of a region: a hover
    event comes from a layer, which [onEachFeature] bound to its feature. *)
Definition layer_properties (env : Env) (fullname : string) : option Feature :=
  List.find (λ f, bool_decide (FULLNAME f = fullname)) (features env).

Definition set_info_box (ib : InfoBox) (st : State) : State :=
  let p := page st in
  set_page (mkPage (stat_count p) (summary_stats_display p) (stat_population p)
                   (stat_area p) (stat_density p) (btn_export_disabled p)
                   (charts p) ib) st.

(** [updateInfoBox(props)] renders the properties and shows the box;
    [clearInfoBox()] hides it and leaves its content. *)
Definition updateInfoBox (props : Feature) (st : State) : State :=
  set_info_box (mkInfoBox (Some props) true) st.

Definition clearInfoBox (st : State) : State :=
  set_info_box (mkInfoBox (info_props (map_info_box (page st))) false) st.

(** [handleMouseOver(e, feature)]: the hover border on an unselected layer,
    then (after the two [bringToFront] calls, which only restack) the info
    box.  [handleMouseOut(e, feature)]: the unselected border back on an
    unselected layer, then the info box hidden. *)
Definition handleMouseOver (env : Env) (fullname : string) (st : State)
  : State :=
  let st1 :=
    if negb (Set_has (selectedTownships st) fullname)
    then set_selection (selectedTownships st)
                       (alter setStyle_hover fullname (townshipLayers st)) st
    else st in
  match layer_properties env fullname with
  | Some props => updateInfoBox props st1
  | None => st1
  end.

Definition handleMouseOut (fullname : string) (st : State) : State :=
  let st1 :=
    if negb (Set_has (selectedTownships st) fullname)
    then set_selection (selectedTownships st)
                       (alter (setStyle_border BORDER_UNSELECTED) fullname
                              (townshipLayers st)) st
    else st in
  clearInfoBox st1.

(** ** Export *)

Inductive Cell :=
| CellText (s : string)
| CellInt (n : Z)
| CellNumber (q : Q).

Record ExportRow := mkExportRow {
  Township : string;
  County : string;
  District : string;
  Population : Z;
  Area_km2 : Q;
  Density : Q
}.

(** [Object.keys(data[0])]: the keys of a row in creation order. *)
Definition row_keys : list string :=
  ["Township"; "County"; "District"; "Population"; "Area_km2"; "Density"].

(** [headers.map(h => row[h])]. *)
Definition row_cells (r : ExportRow) : list Cell :=
  [CellText (Township r); CellText (County r); CellText (District r);
   CellInt (Population r); CellNumber (Area_km2 r); CellNumber (Density r)].

(** [features.find(f => f.properties.FULLNAME === fullname)]. *)
Definition find_feature (env : Env) (fullname : string) : option Feature :=
  List.find (λ f, bool_decide (FULLNAME f = fullname)) (features env).

(** The [forEach] loop of [exportData] filling [data]. *)
Definition export_rows (env : Env) (sel : list string) : list ExportRow :=
  foldl (λ data fullname,
           match find_feature env fullname, populationData env !! fullname with
           | Some feature, Some popData =>
               (data ++ [mkExportRow fullname (COUNTYNAME feature)
                                     (TOWNNAME feature) (population popData)
                                     (area popData) (density popData)])%list
           | _, _ => data
           end) [] sel.

(** The row of a selected name that has both a feature and a population
    record; the rows of a selection, one per such name, in selection order. *)
Definition export_row (env : Env) (fullname : string) : option ExportRow :=
  match find_feature env fullname, populationData env !! fullname with
  | Some feature, Some popData =>
      Some (mkExportRow fullname (COUNTYNAME feature) (TOWNNAME feature)
                        (population popData) (area popData) (density popData))
  | _, _ => None
  end.

Definition rows_of_selection (env : Env) (sel : list string) : list ExportRow :=
  omap (export_row env) sel.

(** What a call of [exportData] does: a toast and nothing else, a
    [TypeError] from [Object.keys(undefined)], or a download of the lines of
    the CSV (cells before they are joined by commas). *)
Inductive ExportOutcome :=
| ToastNotice
| ThrowsTypeError
| Download (filename : string) (lines : list (list Cell)).

Definition exportData (env : Env) (st : State) : ExportOutcome :=
  if bool_decide (length (selectedTownships st) = 0%nat) then ToastNotice
  else
    match export_rows env (selectedTownships st) with
    | [] => ThrowsTypeError
    | data =>
        Download "taiwan_townships_selected.csv"
                 ((CellText <$> row_keys) :: (row_cells <$> data))
    end.

(** The text of the blob: a byte-order mark, cells joined by commas and
    lines by newlines; [show] stands for JavaScript's conversion of a cell
    to a string. *)
Definition BOM : string :=
  String (Ascii.ascii_of_nat 239)
    (String (Ascii.ascii_of_nat 187) (String (Ascii.ascii_of_nat 191) EmptyString)).

Definition newline : string := String (Ascii.ascii_of_nat 10) EmptyString.

Definition csv_text (show : Cell → string) (lines : list (list Cell)) : string :=
  BOM ++ String.concat newline (String.concat "," <$> (fmap show <$> lines)).

(** ** Events *)

(** A click that is not the second click of a double click. *)
Definition single_click (fullname : string) (currentTime : Z) (st : State)
  : Prop :=
  ¬ (lastClickedTownship st = Some fullname
     ∧ currentTime - lastClickTime st < DOUBLE_CLICK_THRESHOLD).


Inductive Event :=
| EvClick (fullname : string) (currentTime : Z)
| EvDblClick (fullname : string)
| EvMouseOver (fullname : string)
| EvMouseOut (fullname : string)
| EvClear
| EvSelectAll
| EvCounty (countyName : string)
| EvRemove (fullname : string).

Definition handle (env : Env) (ev : Event) (st : State) : State :=
  match ev with
  | EvClick fullname t => handleClick env fullname t st
  | EvDblClick fullname => handleDoubleClick env fullname st
  | EvMouseOver fullname => handleMouseOver env fullname st
  | EvMouseOut fullname => handleMouseOut fullname st
  | EvClear => clearAllSelections env st
  | EvSelectAll => selectAllTownships env st
  | EvCounty c => selectCounty env c st
  | EvRemove fullname => removeTownshipFromList env fullname st
  end.

Definition run (env : Env) (evs : list Event) (st : State) : State :=
  foldl (λ s ev, handle env ev s) st evs.

(** The names of the regions of the dataset. *)
Definition region_names (env : Env) : list string := FULLNAME <$> features env.

Definition region_set (env : Env) : gset string :=
  list_to_set (region_names env).

(** No dangling selection: every selected name is the name of a region. *)
Definition no_dangling (env : Env) (st : State) : Prop :=
  selection st ⊆ region_set env.

(** A map event comes from the layer of a feature of the dataset; buttons
    carry any name. *)
Definition on_map (env : Env) (ev : Event) : bool :=
  match ev with
  | EvClick fullname _ | EvDblClick fullname
  | EvMouseOver fullname | EvMouseOut fullname =>
      bool_decide (fullname ∈ region_names env)
  | _ => true
  end.

(** ** Aggregates, as sums over the selected regions *)

(** The population records of the selected regions that have one. *)
Definition selected_records (env : Env) (sel : list string) : list PopData :=
  omap (λ fullname, populationData env !! fullname) sel.

Definition sum_population (recs : list PopData) : Z :=
  foldr Z.add 0 (population <$> recs).

(** The recorded areas added up as doubles, from 0, in the order of the
    records. *)
Definition sum_area (recs : list PopData) : Q :=
  fl_sum (area <$> recs).

(** The total area in the words of the specification: the sum of the
    stored areas, as a number. *)
Definition spec_total_area (recs : list PopData) : Q :=
  foldr Qplus 0%Q (area <$> recs).

(** The statistics on the page agree with the selection: the count is the
    size of the selection; with a non-empty selection the summary is shown,
    the population is the sum of the recorded populations, the area is the
    double-precision sum of the recorded areas, taken in selection order,
    rounded to an integer, and the density is the rounded double-precision
    quotient of the two sums, or 0 when the area sum is not positive; with
    an empty selection the summary is hidden. *)
Definition stats_consistent (env : Env) (st : State) : Prop :=
  let sel := selectedTownships st in
  let recs := selected_records env sel in
  let p := page st in
  stat_count p = (length sel, totalTownships env)
  ∧ (sel = [] → summary_stats_display p = false)
  ∧ (sel ≠ [] →
     summary_stats_display p = true
     ∧ stat_population p = sum_population recs
     ∧ stat_area p = Math_round (sum_area recs)
     ∧ ((0 < sum_area recs)%Q →
        stat_density p
        = Math_round (fl_div (inject_Z (sum_population recs)) (sum_area recs)))
     ∧ ((sum_area recs <= 0)%Q → stat_density p = 0)).

(** ** A small dataset *)

Definition sample_geo : list Feature :=
  [mkFeature "A" "X" "a" None None None;
   mkFeature "B" "X" "b" None None None;
   mkFeature "C" "Y" "c" None None None].

Definition sample_population : gmap string PopData :=
  <["A" := mkPopData 100 10 10]> (<["B" := mkPopData 400 20 20]> ∅).

Definition sample_env : Env :=
  mkEnv (loadData_merge sample_population sample_geo) sample_population
        true (Some (800, 300)%Q) (Some (800, 300)%Q).

Definition empty_page : Page :=
  mkPage (0%nat, 0%nat) false 0 0 0 true
         (mkBarPlots false [] EmptyContainer EmptyContainer)
         (mkInfoBox None false).

(** The state at start-up: nothing selected, no click seen. *)
Definition initial_state : State := mkState [] ∅ 0 None empty_page.

Definition sample_start : State := createGeoJSONLayer sample_env initial_state.

(** Region A selected by a click; A and B selected. *)
Definition sample_A : State := run sample_env [EvClick "A" 1000] sample_start.
Definition sample_AB : State :=
  run sample_env [EvClick "A" 1000; EvClick "B" 2000] sample_start.

(** A and C selected (C has no population record); C alone. *)
Definition sample_AC : State :=
  run sample_env [EvClick "A" 1000; EvClick "C" 2000] sample_start.
Definition sample_C : State := run sample_env [EvClick "C" 2000] sample_start.

(** The dataset of the scenario: A with 100 inhabitants on 10 km2 and B with
    400 on 20 km2. *)
Definition scenario_env : Env :=
  mkEnv (loadData_merge sample_population
           [mkFeature "A" "X" "a" None None None;
            mkFeature "B" "X" "b" None None None])
        sample_population true (Some (800, 300)%Q) (Some (800, 300)%Q).

(** One region of 21/2 km2. *)
Definition fraction_population : gmap string PopData :=
  <["A" := mkPopData 100 (21 # 2) (200 # 21)]> ∅.

Definition fraction_env : Env :=
  mkEnv (loadData_merge fraction_population
           [mkFeature "A" "X" "a" None None None])
        fraction_population true (Some (800, 300)%Q) (Some (800, 300)%Q).

Definition fraction_A : State :=
  run fraction_env [EvClick "A" 1000]
      (createGeoJSONLayer fraction_env initial_state).

(** Three regions of 0.6, 0.7 and 0.2 km2 with one inhabitant each, all
    selected. *)
Definition tenths_population : gmap string PopData :=
  <["A" := mkPopData 1 (6 # 10) (10 # 6)]>
    (<["B" := mkPopData 1 (7 # 10) (10 # 7)]>
       (<["C" := mkPopData 1 (2 # 10) 5]> ∅)).

Definition tenths_env : Env :=
  mkEnv (loadData_merge tenths_population sample_geo) tenths_population
        true (Some (800, 300)%Q) (Some (800, 300)%Q).

Definition tenths_all : State :=
  run tenths_env [EvSelectAll] (createGeoJSONLayer tenths_env initial_state).

(** Two regions of 0.4 and 0.8 km2 with one and two inhabitants, both
    selected. *)
Definition fifths_population : gmap string PopData :=
  <["A" := mkPopData 1 (4 # 10) (10 # 4)]>
    (<["B" := mkPopData 2 (8 # 10) (20 # 8)]> ∅).

Definition fifths_env : Env :=
  mkEnv (loadData_merge fifths_population
           [mkFeature "A" "X" "a" None None None;
            mkFeature "B" "X" "b" None None None])
        fifths_population true (Some (800, 300)%Q) (Some (800, 300)%Q).

Definition fifths_all : State :=
  run fifths_env [EvSelectAll] (createGeoJSONLayer fifths_env initial_state).

(** Sixteen regions with a record each, all selected. *)
Definition sixteen_names : list string :=
  ["r01"; "r02"; "r03"; "r04"; "r05"; "r06"; "r07"; "r08";
   "r09"; "r10"; "r11"; "r12"; "r13"; "r14"; "r15"; "r16"].

Definition sixteen_env : Env :=
  let pd : gmap string PopData :=
    list_to_map ((λ x, (x, mkPopData (Z.of_nat (String.length x)) 1 3))
                   <$> sixteen_names) in
  mkEnv (loadData_merge pd ((λ x, mkFeature x "X" x None None None)
                              <$> sixteen_names))
        pd true (Some (800, 300)%Q) (Some (800, 300)%Q).

Definition sixteen_all : State :=
  run sixteen_env [EvSelectAll] (createGeoJSONLayer sixteen_env initial_state).

(** The sample dataset in a page whose density chart container has no
    width yet. *)
Definition unsized_env : Env :=
  mkEnv (features sample_env) (populationData sample_env) true
        (Some (0, 300)%Q) (Some (800, 300)%Q).

(** ** Start-up *)

(** [init] once the data is loaded: [loadData] ends with [updateStats],
    then come [createGeoJSONLayer] and [updateUI]; [p0] is the page as the
    document delivers it. *)
Definition app_init (env : Env) (p0 : Page) : State :=
  updateUI env
    (createGeoJSONLayer env (updateStats env (mkState [] ∅ 0 None p0))).

(** The border part of a path style. *)
Definition border_of (s : PathStyle) : Border :=
  mkBorder (weight s) (color s) (opacity s).

(** ** More of [BarPlots] *)

(** [refresh]: render the last data again, when there is some. *)
Definition BarPlots_refresh (env : Env) (bp : BarPlots) : BarPlots :=
  if initialized bp && (0 <? length (lastData bp))%nat
  then BarPlots_update env (lastData bp) bp
  else bp.

(** [truncateLabel(text, maxLength)] on a string given by its code units;
    [dot] is the unit of a full stop. *)
Definition truncateLabel {A} (dot : A) (text : list A) (maxLength : nat)
  : list A :=
  if (length text <=? maxLength)%nat then text
  else (take maxLength text ++ [dot; dot])%list.

(** ** County buttons *)

(** GeoJSON coordinates: a position (longitude, latitude and whatever
    follows) or an array of coordinates. *)
#[warnings="-register-all"]
Inductive Coords :=
| Position (lng lat : Q) (more : list Q)
| CoordArray (items : list Coords).

(** [processCoords] of [getAverageLatitude], threading [totalLat] and
    [count]: [totalLat += c[1]; count++]. *)
Fixpoint processCoords (c : Coords) (acc : Q * nat) : Q * nat :=
  match c with
  | Position _ lat _ => (fl_add acc.1 lat, S acc.2)
  | CoordArray items => foldl (λ a c', processCoords c' a) acc items
  end.

Definition getAverageLatitude (coords : Coords) : Q :=
  let '(totalLat, count) := processCoords coords (0%Q, 0%nat) in
  if (0 <? count)%nat then fl_div totalLat (inject_Z (Z.of_nat count))
  else 0%Q.

(** A feature with its geometry. *)
Record GeoFeature := mkGeoFeature {
  gf_properties : Feature;
  gf_coordinates : Coords
}.

(** A JavaScript [Map] with string keys, in insertion order.  [Map_update]
    is the idiom "set the key to an initial value if absent, then change the
    value in place". *)
Fixpoint Map_get {V} (k : string) (m : list (string * V)) : option V :=
  match m with
  | [] => None
  | (k', v) :: m' => if decide (k' = k) then Some v else Map_get k m'
  end.

Fixpoint Map_update {V} (k : string) (init : V) (f : V → V)
    (m : list (string * V)) : list (string * V) :=
  match m with
  | [] => [(k, f init)]
  | (k', v) :: m' =>
      if decide (k' = k) then (k', f v) :: m'
      else (k', v) :: Map_update k init f m'
  end.

Record CountyData := mkCountyData {
  latitudes : list Q;
  townships : list string
}.

Definition countyData (geo : list GeoFeature) : list (string * CountyData) :=
  foldl (λ m gf,
           let countyName := COUNTYNAME (gf_properties gf) in
           let lat := getAverageLatitude (gf_coordinates gf) in
           Map_update countyName (mkCountyData [] [])
             (λ cd, mkCountyData (latitudes cd ++ [lat])
                                 (townships cd ++ [FULLNAME (gf_properties gf)]))
             m) [] geo.

Record CountyEntry := mkCountyEntry {
  c_name : string;
  avgLat : Q;
  c_townships : list string
}.

Definition by_latitude (a b : CountyEntry) : Q := (avgLat b - avgLat a)%Q.

(** [latitudes.reduce((a, b) => a + b, 0) / latitudes.length]. *)
Definition average (l : list Q) : Q :=
  fl_div (fl_sum l) (inject_Z (Z.of_nat (length l))).

Definition sortedCounties (geo : list GeoFeature) : list CountyEntry :=
  Array_sort by_latitude
    ((λ e : string * CountyData,
        mkCountyEntry e.1 (average (latitudes e.2)) (townships e.2))
       <$> countyData geo).

(** A county button: its name and whether it carries the [selected] class
    and the check mark. *)
Record CountyButton := mkCountyButton {
  cb_name : string;
  cb_selected : bool
}.

Definition updateCountyButtons (geo : list GeoFeature) (sel : list string)
  : list CountyButton :=
  (λ county, mkCountyButton (c_name county)
                            (forallb (Set_has sel) (c_townships county)))
    <$> sortedCounties geo.

(** ** The list of selected regions *)

Record ListItem := mkListItem {
  li_fullname : string;
  li_townname : string;
  li_record : option PopData
}.

Record CountyGroup := mkCountyGroup {
  cg_county : string;
  cg_expanded : bool;
  cg_items : list ListItem
}.

Inductive ListView :=
| EmptyMessage
| CountyGroups (groups : list CountyGroup).

(** The [byCounty] map of [updateSelectedList]. *)
Definition byCounty (env : Env) (sel : list string)
  : list (string * list ListItem) :=
  foldl (λ m fullname,
           match find_feature env fullname with
           | Some feature =>
               Map_update (COUNTYNAME feature) []
                 (λ items,
                    (items ++ [mkListItem fullname (TOWNNAME feature)
                                 (populationData env !! fullname)])%list)
                 m
           | None => m
           end) [] sel.

Definition by_count (a b : string * list ListItem) : Q :=
  inject_Z (Z.of_nat (length b.2) - Z.of_nat (length a.2)).

(** [updateSelectedList]; [expandedCounties] is the set of names read off
    the expanded groups of the former list. *)
Definition updateSelectedList (env : Env) (expandedCounties : list string)
    (sel : list string) : ListView :=
  if bool_decide (length sel = 0%nat) then EmptyMessage
  else
    CountyGroups
      ((λ e : string * list ListItem,
          mkCountyGroup e.1 (Set_has expandedCounties e.1) e.2)
         <$> Array_sort by_count (byCounty env sel)).

(** [toggleCountyGroup] on the group of a header. *)
Definition toggleCountyGroup (g : CountyGroup) : CountyGroup :=
  mkCountyGroup (cg_county g) (negb (cg_expanded g)) (cg_items g).

(** ** Layer styles *)

(** The border of an unselected layer under the pointer. *)
Definition hover_border : Border := mkBorder 2 "#666" (8 # 10).

(** The borders agree with the selection: a selected region has the
    selected border; any other region has the unselected border, or the
    hover border. *)
Definition borders_ok (sel : list string) (layers : gmap string PathStyle)
  : Prop :=
  ∀ x s, layers !! x = Some s →
    if Set_has sel x then border_of s = BORDER_SELECTED
    else border_of s = BORDER_UNSELECTED ∨ border_of s = hover_border.

(** The fill part of a path style. *)
Definition fill_of (s : PathStyle) : string * Q := (fillColor s, fillOpacity s).

(** ** Reference computations for the panels *)

(** The latitudes of the positions of a geometry, in document order. *)
Fixpoint coords_latitudes (c : Coords) : list Q :=
  match c with
  | Position _ lat _ => [lat]
  | CoordArray items => mjoin (coords_latitudes <$> items)
  end.

(** The features of a county, in document order. *)
Definition county_features (geo : list GeoFeature) (countyName : string)
  : list GeoFeature :=
  filter (λ gf, COUNTYNAME (gf_properties gf) = countyName) geo.

(** The list items of the selected regions of a county, in selection
    order: a selected name counts when its feature is of that county. *)
Definition county_items (env : Env) (countyName : string) (sel : list string)
  : list ListItem :=
  omap (λ fullname,
          match find_feature env fullname with
          | Some feature =>
              if decide (COUNTYNAME feature = countyName)
              then Some (mkListItem fullname (TOWNNAME feature)
                                    (populationData env !! fullname))
              else None
          | None => None
          end) sel.

(** The sample dataset with geometry: county X with regions at latitudes
    23 and 24, county Y with one region at latitude 25. *)
Definition sample_map : list GeoFeature :=
  zip_with mkGeoFeature (features sample_env)
    [CoordArray [CoordArray [Position 121 (45 # 2) []; Position 122 (47 # 2) []]];
     CoordArray [CoordArray [Position 121 24 []]; CoordArray []];
     CoordArray [CoordArray [Position 121 25 [0%Q]]]].

(** * Properties *)

(** ** The selection as a set *)

Section SetLemmas.
Implicit Types (s : list string) (x y : string).

Lemma Set_has_true s x : Set_has s x = true ↔ x ∈ s.
Proof. unfold Set_has. apply bool_decide_eq_true. Qed.

Lemma Set_has_false s x : Set_has s x = false ↔ x ∉ s.
Proof. unfold Set_has. apply bool_decide_eq_false. Qed.

Lemma elem_of_Set_add s x y : y ∈ Set_add x s ↔ y = x ∨ y ∈ s.
Proof.
  unfold Set_add. destruct (Set_has s x) eqn:E.
  - apply Set_has_true in E. split; [auto | intros [-> | ?]; auto].
  - rewrite elem_of_app, list_elem_of_singleton. tauto.
Qed.

Lemma elem_of_Set_delete s x y : y ∈ Set_delete x s ↔ y ∈ s ∧ y ≠ x.
Proof. unfold Set_delete. rewrite list_elem_of_filter. tauto. Qed.

Lemma Set_delete_absent s x : x ∉ s → Set_delete x s = s.
Proof.
  unfold Set_delete. induction s as [|a s IH]; [done |].
  rewrite not_elem_of_cons. intros [Hne Hs].
  rewrite filter_cons_True by congruence. by rewrite IH.
Qed.

Lemma Set_delete_idemp s x : Set_delete x (Set_delete x s) = Set_delete x s.
Proof.
  apply Set_delete_absent. rewrite elem_of_Set_delete. tauto.
Qed.

Lemma NoDup_Set_add s x : NoDup s → NoDup (Set_add x s).
Proof.
  intros Hs. unfold Set_add. destruct (Set_has s x) eqn:E; [done |].
  apply Set_has_false in E. apply NoDup_app. split; [done |].
  split; [| apply NoDup_singleton].
  intros y Hy ->%list_elem_of_singleton. done.
Qed.

Lemma NoDup_Set_delete s x : NoDup s → NoDup (Set_delete x s).
Proof. apply NoDup_filter. Qed.
End SetLemmas.

(** The update functions only write the page. *)
Lemma selected_updateUI env st :
  selectedTownships (updateUI env st) = selectedTownships st.
Proof.
  unfold updateUI, updateBarPlots, updateExportButton, updateStats.
  destruct (0 <? _)%nat; [destruct (stats_totals _ _) |]; reflexivity.
Qed.

Lemma layers_updateUI env st :
  townshipLayers (updateUI env st) = townshipLayers st.
Proof.
  unfold updateUI, updateBarPlots, updateExportButton, updateStats.
  destruct (0 <? _)%nat; [destruct (stats_totals _ _) |]; reflexivity.
Qed.

Lemma selected_selectTownship env x flag st :
  selectedTownships (selectTownship env x flag st)
  = Set_add x (selectedTownships st).
Proof.
  unfold selectTownship. destruct flag; [rewrite selected_updateUI |]; done.
Qed.

Lemma selected_deselectTownship env x flag st :
  selectedTownships (deselectTownship env x flag st)
  = Set_delete x (selectedTownships st).
Proof.
  unfold deselectTownship. destruct flag; [rewrite selected_updateUI |]; done.
Qed.

(** The two loops of [selectCounty]. *)
Lemma deselect_loop env names : ∀ st x,
  x ∈ selectedTownships
        (foldl (λ s name, deselectTownship env name false s) st names)
  ↔ x ∈ selectedTownships st ∧ x ∉ names.
Proof.
  induction names as [|n names IH]; intros st x; cbn [foldl].
  - rewrite elem_of_nil. tauto.
  - rewrite IH, selected_deselectTownship, elem_of_Set_delete, not_elem_of_cons.
    tauto.
Qed.

Lemma select_loop env names : ∀ st x,
  x ∈ selectedTownships
        (foldl (λ s name,
                  if Set_has (selectedTownships s) name then s
                  else selectTownship env name false s) st names)
  ↔ x ∈ selectedTownships st ∨ x ∈ names.
Proof.
  induction names as [|n names IH]; intros st x; cbn [foldl].
  - rewrite elem_of_nil. tauto.
  - rewrite IH, elem_of_cons. destruct (Set_has _ n) eqn:E.
    + apply Set_has_true in E. split; [tauto |].
      intros [? | [-> | ?]]; auto.
    + rewrite selected_selectTownship, elem_of_Set_add. tauto.
Qed.

Lemma allSelected_true env c st :
  allSelected env c st = true ↔ county_set env c ⊆ selection st.
Proof.
  unfold allSelected, selection, county_set. rewrite forallb_forall. split.
  - intros H x Hx%elem_of_list_to_set. apply elem_of_list_to_set.
    apply Set_has_true, H. by apply list_elem_of_In.
  - intros H x Hx%list_elem_of_In. apply Set_has_true.
    apply (elem_of_list_to_set (C := gset string)), H.
    by apply elem_of_list_to_set.
Qed.

Lemma selectCounty_off env c st :
  allSelected env c st = true →
  selection (selectCounty env c st) = selection st ∖ county_set env c.
Proof.
  intros H. unfold selectCounty, selection, county_set.
  rewrite H, selected_updateUI. apply set_eq. intros x.
  rewrite elem_of_difference, !elem_of_list_to_set. apply deselect_loop.
Qed.

Lemma selectCounty_on env c st :
  allSelected env c st = false →
  selection (selectCounty env c st) = selection st ∪ county_set env c.
Proof.
  intros H. unfold selectCounty, selection, county_set.
  rewrite H, selected_updateUI. apply set_eq. intros x.
  rewrite elem_of_union, !elem_of_list_to_set. apply select_loop.
Qed.

(** C1. [selectCounty] is one toggle: when every region of the county is
    already selected it removes exactly the county's regions from the
    selection; otherwise it adds exactly the county's regions, so the
    members already selected stay selected and the others become
    selected. *)
Theorem selectCounty_toggle (env : Env) (countyName : string) (st : State) :
  (county_set env countyName ⊆ selection st →
   selection (selectCounty env countyName st)
   = selection st ∖ county_set env countyName)
  ∧ (county_set env countyName ⊈ selection st →
     selection (selectCounty env countyName st)
     = selection st ∪ county_set env countyName).
Proof.
  split; intros H.
  - by apply selectCounty_off, allSelected_true.
  - apply selectCounty_on. apply not_true_is_false.
    by rewrite allSelected_true.
Qed.

Lemma selectCounty_toggle_witness :
  selection (selectCounty sample_env "X" sample_AB)
  = selection sample_AB ∖ county_set sample_env "X"
  ∧ selection (selectCounty sample_env "X" sample_A)
    = selection sample_A ∪ county_set sample_env "X".
Proof.
  split.
  - apply (proj1 (selectCounty_toggle sample_env "X" sample_AB)).
    apply (bool_decide_unpack _). vm_compute. exact I.
  - apply (proj2 (selectCounty_toggle sample_env "X" sample_A)).
    apply (bool_decide_eq_false_1 _). vm_compute. reflexivity.
Defined.

(** C2, as stated, fails: with only A of county X = {A, B} selected, the
    first call selects B and the second deselects both. *)
Lemma selectCounty_twice_partial :
  selection (selectCounty sample_env "X" (selectCounty sample_env "X" sample_A))
  ≠ selection sample_A.
Proof. apply (bool_decide_eq_false_1 _). vm_compute. reflexivity. Qed.

(** Set identities behind the double toggle. *)
Lemma toggle_full_back (C S : gset string) : C ⊆ S → (S ∖ C) ∪ C = S.
Proof.
  intros HCS. apply set_eq. intros x.
  rewrite elem_of_union, elem_of_difference.
  destruct (decide (x ∈ C)) as [HC | HC]; [pose proof (HCS x HC) |]; tauto.
Qed.

Lemma toggle_none_back (C S : gset string) : C ## S → (S ∪ C) ∖ C = S.
Proof.
  intros HCS. apply set_eq. intros x.
  rewrite elem_of_difference, elem_of_union.
  pose proof (HCS x). tauto.
Qed.

Lemma toggle_empty (C S : gset string) : C ⊆ S ∖ C → S ∖ C ∖ C = S.
Proof.
  intros HCS. apply set_eq. intros x. rewrite !elem_of_difference.
  pose proof (HCS x) as Hx. rewrite elem_of_difference in Hx. tauto.
Qed.

(** C2 (amended). Two calls of [selectCounty] in a row give back the
    selection they started from when, at the first call, the county is
    either fully selected or has no selected region. *)
Theorem selectCounty_twice (env : Env) (countyName : string) (st : State) :
  county_set env countyName ⊆ selection st
  ∨ county_set env countyName ## selection st →
  selection (selectCounty env countyName (selectCounty env countyName st))
  = selection st.
Proof.
  intros H.
  destruct (allSelected env countyName st) eqn:E1.
  - pose proof (selectCounty_off _ _ _ E1) as H1.
    apply allSelected_true in E1.
    destruct (allSelected env countyName (selectCounty env countyName st)) eqn:E2.
    + rewrite (selectCounty_off _ _ _ E2), H1.
      apply allSelected_true in E2. rewrite H1 in E2.
      by apply toggle_empty.
    + rewrite (selectCounty_on _ _ _ E2), H1. by apply toggle_full_back.
  - pose proof (selectCounty_on _ _ _ E1) as H1.
    destruct H as [H | H]; [apply allSelected_true in H; congruence |].
    destruct (allSelected env countyName (selectCounty env countyName st)) eqn:E2.
    + rewrite (selectCounty_off _ _ _ E2), H1. by apply toggle_none_back.
    + exfalso. apply not_true_iff_false in E2. apply E2.
      apply allSelected_true. rewrite H1. apply union_subseteq_r.
Qed.

Lemma selectCounty_twice_witness :
  selection (selectCounty sample_env "X" (selectCounty sample_env "X" sample_AB))
  = selection sample_AB
  ∧ selection (selectCounty sample_env "Y" (selectCounty sample_env "Y" sample_AB))
    = selection sample_AB.
Proof.
  split.
  - apply (selectCounty_twice sample_env "X" sample_AB). left.
    apply (bool_decide_unpack _). vm_compute. exact I.
  - apply (selectCounty_twice sample_env "Y" sample_AB). right.
    apply (bool_decide_unpack _). vm_compute. exact I.
Defined.

(** ** Re-rendering is idempotent *)

Lemma renderChart_twice box data old :
  renderChart box data (renderChart box data old) = renderChart box data old.
Proof. destruct box as [[w h]|]; reflexivity. Qed.

Lemma BarPlots_update_twice env data bp :
  BarPlots_update env data (BarPlots_update env data bp)
  = BarPlots_update env data bp.
Proof.
  destruct bp as [ini ld dv pv]. unfold BarPlots_update, BarPlots_init.
  destruct ini; cbn [initialized negb].
  - cbn. by rewrite !renderChart_twice.
  - destruct (d3_defined env); cbn; [| reflexivity].
    destruct (density_container env) as [dc|]; cbn; [| reflexivity].
    destruct (population_container env) as [pc|]; cbn; [| reflexivity].
    by destruct dc, pc.
Qed.

Lemma updateExportButton_page sel l t la c v p a d e bp ib :
  updateExportButton (mkState sel l t la (mkPage c v p a d e bp ib))
  = mkState sel l t la
      (mkPage c v p a d (bool_decide (length sel = 0%nat)) bp ib).
Proof. reflexivity. Qed.

Lemma updateBarPlots_page env sel l t la c v p a d e bp ib :
  updateBarPlots env (mkState sel l t la (mkPage c v p a d e bp ib))
  = mkState sel l t la
      (mkPage c v p a d e (BarPlots_update env (selectedData env sel) bp) ib).
Proof. reflexivity. Qed.

Lemma updateBarPlots_page' env st :
  charts (page (updateBarPlots env st))
  = BarPlots_update env (selectedData env (selectedTownships st))
                    (charts (page st)).
Proof. reflexivity. Qed.

Lemma updateExportButton_page' st :
  charts (page (updateExportButton st)) = charts (page st)
  ∧ selectedTownships (updateExportButton st) = selectedTownships st.
Proof. split; reflexivity. Qed.

Lemma updateStats_page_shown env sel l t la c v p a d e bp ib tp ta :
  (0 <? length sel)%nat = true →
  stats_totals env sel = (tp, ta) →
  updateStats env (mkState sel l t la (mkPage c v p a d e bp ib))
  = mkState sel l t la
      (mkPage (length sel, totalTownships env) true tp (Math_round ta)
              (avgDensity tp ta) e bp ib).
Proof.
  intros E Et. unfold updateStats. cbn [selectedTownships page].
  by rewrite E, Et.
Qed.

Lemma updateStats_page_hidden env sel l t la c v p a d e bp ib :
  (0 <? length sel)%nat = false →
  updateStats env (mkState sel l t la (mkPage c v p a d e bp ib))
  = mkState sel l t la
      (mkPage (length sel, totalTownships env) false p a d e bp ib).
Proof.
  intros E. unfold updateStats. cbn [selectedTownships page]. by rewrite E.
Qed.

Lemma updateUI_twice env st : updateUI env (updateUI env st) = updateUI env st.
Proof.
  destruct st as [sel layers t last [c v p a d e bp ib]]. unfold updateUI.
  destruct (0 <? length sel)%nat eqn:E.
  - destruct (stats_totals env sel) as [tp ta] eqn:Et.
    rewrite (updateStats_page_shown _ _ _ _ _ _ _ _ _ _ _ _ _ _ _ E Et).
    rewrite updateExportButton_page, updateBarPlots_page.
    rewrite (updateStats_page_shown _ _ _ _ _ _ _ _ _ _ _ _ _ _ _ E Et).
    rewrite updateExportButton_page, updateBarPlots_page.
    by rewrite BarPlots_update_twice.
  - rewrite (updateStats_page_hidden _ _ _ _ _ _ _ _ _ _ _ _ _ E).
    rewrite updateExportButton_page, updateBarPlots_page.
    rewrite (updateStats_page_hidden _ _ _ _ _ _ _ _ _ _ _ _ _ E).
    rewrite updateExportButton_page, updateBarPlots_page.
    by rewrite BarPlots_update_twice.
Qed.

Lemma setStyle_border_twice b (m : gmap string PathStyle) (x : string) :
  alter (setStyle_border b) x (alter (setStyle_border b) x m)
  = alter (setStyle_border b) x m.
Proof.
  rewrite alter_alter_eq. apply alter_ext. intros s _. reflexivity.
Qed.

Lemma set_selection_same st :
  set_selection (selectedTownships st) (townshipLayers st) st = st.
Proof. by destruct st. Qed.

(** C9. [deselectTownship] is idempotent: on a name that is not selected it
    leaves the selection as it is, and a second call in a row changes
    nothing that the first has not done (selection, layer styles and page
    alike). *)
Theorem deselectTownship_idempotent
    (env : Env) (fullname : string) (updateUIFlag : bool) (st : State) :
  (fullname ∉ selection st →
   selectedTownships (deselectTownship env fullname updateUIFlag st)
   = selectedTownships st)
  ∧ deselectTownship env fullname updateUIFlag
      (deselectTownship env fullname updateUIFlag st)
    = deselectTownship env fullname updateUIFlag st.
Proof.
  split.
  - intros H. rewrite selected_deselectTownship. apply Set_delete_absent.
    intros Hin. apply H. by apply elem_of_list_to_set.
  - unfold deselectTownship at 1.
    rewrite selected_deselectTownship, Set_delete_idemp.
    assert (townshipLayers (deselectTownship env fullname updateUIFlag st)
            = alter (setStyle_border BORDER_UNSELECTED) fullname
                    (townshipLayers st)) as ->.
    { unfold deselectTownship.
      destruct updateUIFlag; [rewrite layers_updateUI |]; reflexivity. }
    rewrite setStyle_border_twice.
    rewrite <- (selected_deselectTownship env fullname updateUIFlag st) at 1.
    assert (alter (setStyle_border BORDER_UNSELECTED) fullname
                  (townshipLayers st)
            = townshipLayers (deselectTownship env fullname updateUIFlag st))
      as ->.
    { unfold deselectTownship.
      destruct updateUIFlag; [rewrite layers_updateUI |]; reflexivity. }
    rewrite set_selection_same.
    destruct updateUIFlag; [| reflexivity].
    unfold deselectTownship. apply updateUI_twice.
Qed.

Lemma deselectTownship_idempotent_witness :
  selectedTownships (deselectTownship sample_env "C" true sample_AB)
  = selectedTownships sample_AB.
Proof.
  apply (proj1 (deselectTownship_idempotent sample_env "C" true sample_AB)).
  apply (bool_decide_unpack _). vm_compute. exact I.
Defined.

(** ** Clicks *)

Lemma click_fields_updateUI env st :
  lastClickTime (updateUI env st) = lastClickTime st
  ∧ lastClickedTownship (updateUI env st) = lastClickedTownship st.
Proof.
  unfold updateUI, updateBarPlots, updateExportButton, updateStats.
  destruct (0 <? _)%nat; [destruct (stats_totals _ _) |]; split; reflexivity.
Qed.

Lemma selection_Set_add x s :
  (list_to_set (Set_add x s) : gset string) = list_to_set s ∪ {[x]}.
Proof.
  apply set_eq. intros y.
  rewrite elem_of_union, elem_of_singleton, !elem_of_list_to_set.
  rewrite elem_of_Set_add. tauto.
Qed.

Lemma selection_Set_delete x s :
  (list_to_set (Set_delete x s) : gset string) = list_to_set s ∖ {[x]}.
Proof.
  apply set_eq. intros y.
  rewrite elem_of_difference, elem_of_singleton, !elem_of_list_to_set.
  apply elem_of_Set_delete.
Qed.

Lemma handleClick_single env fullname t st :
  single_click fullname t st →
  selection (handleClick env fullname t st) = selection st ∪ {[fullname]}
  ∧ lastClickedTownship (handleClick env fullname t st) = Some fullname
  ∧ lastClickTime (handleClick env fullname t st) = t.
Proof.
  intros Hs. unfold handleClick.
  destruct (bool_decide _ && _) eqn:E.
  { exfalso. apply Hs. apply andb_true_iff in E as [E1 E2].
    apply bool_decide_eq_true in E1. apply Z.ltb_lt in E2. done. }
  cbn [selectedTownships]. destruct (Set_has _ fullname) eqn:Eh; cbn [negb].
  - apply Set_has_true in Eh. repeat split; try reflexivity.
    unfold selection. cbn [selectedTownships]. apply set_eq. intros y.
    rewrite elem_of_union, elem_of_singleton, !elem_of_list_to_set.
    split; [tauto | intros [? | ->]; done].
  - destruct (click_fields_updateUI env
        (set_selection (Set_add fullname (selectedTownships st))
           (alter (setStyle_border BORDER_SELECTED) fullname (townshipLayers st))
           (mkState (selectedTownships st) (townshipLayers st) t (Some fullname)
                    (page st)))) as [Ht Hl].
    unfold selectTownship. cbn [selectedTownships townshipLayers].
    rewrite Ht, Hl. repeat split; try reflexivity.
    unfold selection. rewrite selected_updateUI. cbn [selectedTownships set_selection].
    apply selection_Set_add.
Qed.

Lemma handleClick_repeat env fullname t st :
  lastClickedTownship st = Some fullname →
  t - lastClickTime st < DOUBLE_CLICK_THRESHOLD →
  handleClick env fullname t st = st.
Proof.
  intros Hl Ht. unfold handleClick.
  rewrite bool_decide_eq_true_2 by done.
  apply Z.ltb_lt in Ht. by rewrite Ht.
Qed.

Lemma handleDoubleClick_selection env fullname st :
  selection (handleDoubleClick env fullname st) = selection st ∖ {[fullname]}.
Proof.
  unfold handleDoubleClick, selection.
  destruct (Set_has _ fullname) eqn:Eh.
  - rewrite selected_deselectTownship. apply selection_Set_delete.
  - apply Set_has_false in Eh. rewrite <- selection_Set_delete.
    by rewrite Set_delete_absent.
Qed.

(** C4. A single click selects the clicked region and leaves it selected
    when it already was; the second click of a double click (same region,
    less than 300 ms after the recorded click) does nothing, and the
    double-click handler removes the region and adds nothing.  So a click,
    its repeat within the threshold and the double click end with the region
    unselected, while the click alone ends with it selected. *)
Theorem click_then_double_click
    (env : Env) (fullname : string) (t1 t2 : Z) (st : State) :
  single_click fullname t1 st →
  t2 - t1 < DOUBLE_CLICK_THRESHOLD →
  let clicked := handleClick env fullname t1 st in
  selection clicked = selection st ∪ {[fullname]}
  ∧ fullname ∈ selection clicked
  ∧ handleClick env fullname t2 clicked = clicked
  ∧ selection (handleDoubleClick env fullname st) = selection st ∖ {[fullname]}
  ∧ selection (handleDoubleClick env fullname
                 (handleClick env fullname t2 clicked))
    = selection st ∖ {[fullname]}
  ∧ fullname ∉ selection (handleDoubleClick env fullname
                            (handleClick env fullname t2 clicked)).
Proof.
  intros Hs Ht clicked.
  destruct (handleClick_single env fullname t1 st Hs) as (Hsel & Hl & Hti).
  fold clicked in Hsel, Hl, Hti.
  assert (handleClick env fullname t2 clicked = clicked) as Hrep.
  { apply handleClick_repeat; [done | by rewrite Hti]. }
  assert (selection (handleDoubleClick env fullname
                       (handleClick env fullname t2 clicked))
          = selection st ∖ {[fullname]}) as Hdbl.
  { rewrite Hrep, handleDoubleClick_selection, Hsel.
    apply set_eq. intros y.
    rewrite !elem_of_difference, elem_of_union, elem_of_singleton. tauto. }
  split; [done |]. split.
  { rewrite Hsel, elem_of_union, elem_of_singleton. tauto. }
  split; [done |]. split; [apply handleDoubleClick_selection |].
  split; [done |].
  rewrite Hdbl, elem_of_difference, elem_of_singleton. tauto.
Qed.

Lemma click_then_double_click_witness :
  "A" ∈ selection (handleClick sample_env "A" 1000 sample_start)
  ∧ "A" ∉ selection (handleDoubleClick sample_env "A"
                       (handleClick sample_env "A" 1150
                          (handleClick sample_env "A" 1000 sample_start))).
Proof.
  assert (single_click "A" 1000 sample_start) as Hs.
  { unfold single_click. vm_compute. intros [H _]. discriminate H. }
  assert (1150 - 1000 < DOUBLE_CLICK_THRESHOLD) as Ht.
  { unfold DOUBLE_CLICK_THRESHOLD. lia. }
  pose proof (click_then_double_click sample_env "A" 1000 1150 sample_start
                Hs Ht) as H.
  cbv zeta in H. tauto.
Defined.

(** ** No dangling selection *)

Lemma county_set_regions env c : county_set env c ⊆ region_set env.
Proof.
  unfold county_set, region_set, countyTownships, region_names.
  intros x. rewrite !elem_of_list_to_set, !list_elem_of_fmap.
  intros (f & -> & Hf%list_elem_of_filter). exists f. tauto.
Qed.

Lemma select_all_loop env fs : ∀ st x,
  x ∈ selectedTownships
        (foldl (λ s f, selectTownship env (FULLNAME f) false s) st fs)
  ↔ x ∈ selectedTownships st ∨ x ∈ FULLNAME <$> fs.
Proof.
  induction fs as [|f fs IH]; intros st x; cbn [foldl fmap list_fmap].
  - rewrite elem_of_nil. tauto.
  - rewrite IH, selected_selectTownship, elem_of_Set_add, elem_of_cons. tauto.
Qed.

Lemma selectAllTownships_selection env st :
  selection (selectAllTownships env st) = selection st ∪ region_set env.
Proof.
  unfold selectAllTownships, selection, region_set, region_names.
  rewrite selected_updateUI. apply set_eq. intros x.
  rewrite elem_of_union, !elem_of_list_to_set. apply select_all_loop.
Qed.

Lemma clearAllSelections_selection env st :
  selection (clearAllSelections env st) = ∅.
Proof.
  unfold clearAllSelections, selection. by rewrite selected_updateUI.
Qed.

Lemma handleClick_selection_sub env fullname t st :
  selection (handleClick env fullname t st) ⊆ selection st ∪ {[fullname]}.
Proof.
  unfold handleClick. destruct (bool_decide _ && _).
  { apply union_subseteq_l. }
  cbn [selectedTownships]. destruct (Set_has _ fullname); cbn [negb].
  - apply union_subseteq_l.
  - unfold selection. rewrite selected_selectTownship.
    cbn [selectedTownships]. by rewrite selection_Set_add.
Qed.

Lemma hover_selection env fullname st :
  selectedTownships (handleMouseOver env fullname st) = selectedTownships st
  ∧ selectedTownships (handleMouseOut fullname st) = selectedTownships st.
Proof.
  unfold handleMouseOver, handleMouseOut.
  destruct (layer_properties env fullname), (Set_has _ fullname);
    split; reflexivity.
Qed.

Lemma hover_layers env fullname st :
  townshipLayers (handleMouseOver env fullname st)
  = (if Set_has (selectedTownships st) fullname then townshipLayers st
     else alter setStyle_hover fullname (townshipLayers st))
  ∧ townshipLayers (handleMouseOut fullname st)
    = (if Set_has (selectedTownships st) fullname then townshipLayers st
       else alter (setStyle_border BORDER_UNSELECTED) fullname
                  (townshipLayers st)).
Proof.
  unfold handleMouseOver, handleMouseOut.
  destruct (layer_properties env fullname), (Set_has _ fullname);
    split; reflexivity.
Qed.

Lemma handle_no_dangling env ev st :
  on_map env ev = true → no_dangling env st → no_dangling env (handle env ev st).
Proof.
  unfold no_dangling. intros Hev Hst.
  destruct ev as [x t | x | x | x | | | c | x]; cbn [handle on_map] in *.
  - apply bool_decide_eq_true in Hev.
    etrans; [apply handleClick_selection_sub |].
    apply union_least; [done |].
    apply singleton_subseteq_l. by apply elem_of_list_to_set.
  - rewrite handleDoubleClick_selection.
    etrans; [apply subseteq_difference_l; reflexivity | done].
  - unfold selection in *. by rewrite (proj1 (hover_selection env x st)).
  - unfold selection in *. by rewrite (proj2 (hover_selection env x st)).
  - rewrite clearAllSelections_selection. apply empty_subseteq.
  - rewrite selectAllTownships_selection. by apply union_least.
  - destruct (allSelected env c st) eqn:E.
    + rewrite (selectCounty_off _ _ _ E).
      etrans; [apply subseteq_difference_l; reflexivity | done].
    + rewrite (selectCounty_on _ _ _ E).
      apply union_least; [done | apply county_set_regions].
  - unfold removeTownshipFromList, selection in *.
    rewrite selected_deselectTownship, selection_Set_delete.
    etrans; [apply subseteq_difference_l; reflexivity | done].
Qed.

(** C7. Every operation driven by a map event or a button keeps the
    selection inside the set of region names of the dataset, and so does
    every sequence of them; in particular every state reached from the
    empty selection has no dangling name. *)
Theorem selection_stays_in_dataset (env : Env) (evs : list Event) (st : State) :
  forallb (on_map env) evs = true →
  no_dangling env st →
  no_dangling env (run env evs st).
Proof.
  unfold run. revert st.
  induction evs as [|ev evs IH]; intros st Hevs Hst; cbn [foldl]; [done |].
  cbn [forallb] in Hevs. apply andb_true_iff in Hevs as [Hev Hevs].
  apply IH; [done |]. by apply handle_no_dangling.
Qed.

Lemma selection_stays_in_dataset_witness :
  no_dangling sample_env
    (run sample_env
         [EvClick "A" 1000; EvCounty "X"; EvSelectAll; EvDblClick "B";
          EvCounty "Y"; EvRemove "A"; EvClear; EvClick "C" 5000]
         sample_start).
Proof.
  apply selection_stays_in_dataset.
  - vm_compute. reflexivity.
  - unfold no_dangling. apply (bool_decide_unpack _). vm_compute. exact I.
Defined.

(** ** Colour buckets *)

Lemma grade_reached_spec d i :
  grade_reached d i = true
  ↔ ∃ g, COLOR_GRADES !! i = Some g ∧ (inject_Z g <= d)%Q.
Proof.
  unfold grade_reached. destruct (COLOR_GRADES !! i) as [g|].
  - rewrite Qle_bool_iff. split; [eauto | intros (g' & [= <-] & H); done].
  - split; [done | intros (g & [=] & _)].
Qed.

Lemma grade_reached_mono d1 d2 i :
  (d1 <= d2)%Q → grade_reached d1 i = true → grade_reached d2 i = true.
Proof.
  rewrite !grade_reached_spec. intros Hd (g & Hg & Hle).
  exists g. split; [done | by apply Qle_trans with d1].
Qed.

(** The loop returns the largest index below [n] whose grade is reached. *)
Lemma getColor_loop_Some d n i :
  getColor_loop d n = Some i
  ↔ (i < n)%nat ∧ grade_reached d i = true
    ∧ ∀ j, (i < j < n)%nat → grade_reached d j = false.
Proof.
  induction n as [|n IH]; cbn [getColor_loop].
  - split; [done | intros [? _]; lia].
  - destruct (grade_reached d n) eqn:E.
    + split.
      * intros [= <-]. repeat split; [lia | done | intros j ?; lia].
      * intros (Hi & Hr & Hj). f_equal.
        destruct (decide (i = n)) as [-> | Hne]; [done |].
        rewrite (Hj n) in E by lia. done.
    + rewrite IH. split.
      * intros (Hi & Hr & Hj). repeat split; [lia | done |].
        intros j Hjn. destruct (decide (j = n)) as [-> | ?]; [done |].
        apply Hj. lia.
      * intros (Hi & Hr & Hj).
        assert (i ≠ n) by (intros ->; congruence).
        repeat split; [lia | done | intros j ?; apply Hj; lia].
Qed.

Lemma getColor_loop_None d n :
  getColor_loop d n = None ↔ ∀ j, (j < n)%nat → grade_reached d j = false.
Proof.
  induction n as [|n IH]; cbn [getColor_loop].
  - split; [intros _ j ?; lia | done].
  - destruct (grade_reached d n) eqn:E.
    + split; [done | intros H; rewrite (H n) in E by lia; done].
    + rewrite IH. split.
      * intros H j Hj. destruct (decide (j = n)) as [-> | ?]; [done |].
        apply H. lia.
      * intros H j Hj. apply H. lia.
Qed.

Lemma getColor_palette d : getColor d = palette (getColor_index d).
Proof.
  unfold getColor, getColor_index. by destruct (getColor_loop d _).
Qed.

Lemma grade_0_reached d : (0 <= d)%Q → grade_reached d 0 = true.
Proof. intros H. apply grade_reached_spec. exists 0. done. Qed.

Lemma getColor_index_nonneg d :
  (0 <= d)%Q → getColor_loop d (length COLOR_GRADES) = Some (getColor_index d).
Proof.
  intros Hd. unfold getColor_index.
  destruct (getColor_loop d _) as [i|] eqn:E; [done |].
  rewrite getColor_loop_None in E.
  assert (grade_reached d 0 = false) as H0 by (apply E; cbn; lia).
  by rewrite (grade_0_reached d Hd) in H0.
Qed.

Lemma getColor_index_negative d : (d < 0)%Q → getColor_index d = 0%nat.
Proof.
  intros Hd. unfold getColor_index.
  assert (getColor_loop d (length COLOR_GRADES) = None) as ->; [| done].
  apply getColor_loop_None. intros j Hj.
  apply not_true_is_false. rewrite grade_reached_spec.
  intros (g & Hg & Hle).
  assert (0 <= g).
  { apply list_elem_of_lookup_2 in Hg. unfold COLOR_GRADES in Hg.
    set_unfold. lia. }
  apply (Qlt_irrefl d). apply Qlt_le_trans with 0%Q; [done |].
  apply Qle_trans with (inject_Z g); [| done].
  change 0%Q with (inject_Z 0). by rewrite <- Zle_Qle.
Qed.

Lemma getColor_index_mono d1 d2 :
  (d1 <= d2)%Q → (getColor_index d1 ≤ getColor_index d2)%nat.
Proof.
  intros Hd. destruct (Qlt_le_dec d1 0) as [Hneg | Hpos].
  { rewrite (getColor_index_negative d1 Hneg). lia. }
  pose proof (getColor_index_nonneg d1 Hpos) as H1.
  pose proof (getColor_index_nonneg d2 (Qle_trans _ _ _ Hpos Hd)) as H2.
  apply getColor_loop_Some in H1 as (Hi1 & Hr1 & _).
  apply getColor_loop_Some in H2 as (Hi2 & Hr2 & Hj2).
  apply Nat.nlt_ge. intros Hlt.
  pose proof (grade_reached_mono d1 d2 _ Hd Hr1) as Hr.
  rewrite (Hj2 (getColor_index d1)) in Hr by lia. done.
Qed.

(** C6. For a density [d >= 0], [getColor d] is the palette colour at the
    largest index whose grade [d] reaches; [getColor 0] is the first colour;
    the bucket index never decreases when the density grows; and a negative
    density gets the first colour, like 0. *)
Theorem getColor_largest_bucket :
  (∀ d : Q, (0 <= d)%Q →
     ∃ i g, getColor_index d = i ∧ getColor d = palette i
            ∧ COLOR_GRADES !! i = Some g ∧ (inject_Z g <= d)%Q
            ∧ ∀ j h, (i < j)%nat → COLOR_GRADES !! j = Some h →
                     (d < inject_Z h)%Q)
  ∧ getColor 0 = palette 0
  ∧ (∀ d1 d2 : Q, (d1 <= d2)%Q → (getColor_index d1 ≤ getColor_index d2)%nat)
  ∧ (∀ d : Q, (d < 0)%Q → getColor d = palette 0 ∧ getColor d = getColor 0).
Proof.
  split; [| split; [reflexivity | split]].
  - intros d Hd. pose proof (getColor_index_nonneg d Hd) as H.
    apply getColor_loop_Some in H as (Hi & Hr & Hj).
    apply grade_reached_spec in Hr as (g & Hg & Hle).
    exists (getColor_index d), g. repeat split; try done.
    { apply getColor_palette. }
    intros j h Hij Hh. apply Qnot_le_lt. intros Hle'.
    assert (grade_reached d j = true) as Hr.
    { apply grade_reached_spec. eauto. }
    rewrite Hj in Hr; [done |]. split; [done |].
    by apply lookup_lt_Some in Hh.
  - apply getColor_index_mono.
  - intros d Hd. rewrite getColor_palette, (getColor_index_negative d Hd).
    split; reflexivity.
Qed.

Lemma getColor_largest_bucket_witness :
  (∃ i g, getColor_index 700 = i ∧ getColor 700 = palette i
          ∧ COLOR_GRADES !! i = Some g ∧ (inject_Z g <= 700)%Q
          ∧ ∀ j h, (i < j)%nat → COLOR_GRADES !! j = Some h →
                   (700 < inject_Z h)%Q)
  ∧ (getColor_index 700 ≤ getColor_index 25000)%nat
  ∧ getColor (-5) = palette 0.
Proof.
  destruct getColor_largest_bucket as (H1 & _ & H3 & H4).
  split; [| split].
  - apply (H1 700%Q). vm_compute. discriminate.
  - apply (H3 700%Q 25000%Q). vm_compute. discriminate.
  - apply (H4 (-5)%Q). vm_compute. reflexivity.
Defined.

(** ** Map style *)

Lemma mergeFeature_no_record pd f :
  pd !! FULLNAME f = None → mergeFeature pd f = f.
Proof. intros H. unfold mergeFeature. by rewrite H. Qed.

(** C10. A region whose density is undefined (no population record was
    merged into it) is filled as if its density were 0: with the first
    palette colour. *)
Theorem styleFeature_missing_density (st : State) (f : Feature) :
  f_density f = None →
  fillColor (styleFeature st f) = palette 0
  ∧ fillColor (styleFeature st f) = getColor 0
  ∧ fillColor (styleFeature st f) = "#ffffff".
Proof.
  intros H. unfold styleFeature. cbn [fillColor]. rewrite H.
  repeat split; reflexivity.
Qed.

Lemma styleFeature_missing_density_witness :
  fillColor (styleFeature sample_A (mergeFeature sample_population
                                      (mkFeature "C" "Y" "c" None None None)))
  = "#ffffff".
Proof.
  apply (styleFeature_missing_density sample_A
           (mergeFeature sample_population
              (mkFeature "C" "Y" "c" None None None))).
  vm_compute. reflexivity.
Defined.

(** ** Aggregate statistics *)

Lemma selected_records_cons env n sel :
  selected_records env (n :: sel)
  = match populationData env !! n with
    | Some data => data :: selected_records env sel
    | None => selected_records env sel
    end.
Proof. reflexivity. Qed.

Lemma sum_population_cons data recs :
  sum_population (data :: recs) = population data + sum_population recs.
Proof. reflexivity. Qed.

(** The loop of [updateStats] from any intermediate totals: the
    population total grows by the recorded populations, and the area total
    is the running double-precision sum continued over the recorded areas,
    one addition per record and none for a name without a record. *)
Lemma stats_loop env sel : ∀ acc,
  (foldl (stats_step env) acc sel).1
  = acc.1 + sum_population (selected_records env sel)
  ∧ (foldl (stats_step env) acc sel).2
    = foldl fl_add acc.2 (area <$> selected_records env sel).
Proof.
  induction sel as [|n sel IH]; intros [tp ta]; cbn [foldl].
  - cbn [fst snd]. change (sum_population _) with 0. split; [lia | done].
  - destruct (IH (stats_step env (tp, ta) n)) as [IH1 IH2].
    rewrite IH1, IH2, selected_records_cons. unfold stats_step.
    cbn [fst snd].
    destruct (populationData env !! n) as [data|]; cbn [fst snd].
    + rewrite sum_population_cons. split; [lia | done].
    + done.
Qed.

Lemma stats_totals_sums env sel tp ta :
  stats_totals env sel = (tp, ta) →
  tp = sum_population (selected_records env sel)
  ∧ ta = sum_area (selected_records env sel).
Proof.
  intros H. destruct (stats_loop env sel (0, 0%Q)) as [H1 H2].
  unfold stats_totals in H. rewrite H in H1, H2. cbn [fst snd] in *.
  split; [lia | exact H2].
Qed.

Lemma Qlt_bool_true a b : Qlt_bool a b = true ↔ (a < b)%Q.
Proof.
  unfold Qlt_bool. rewrite negb_true_iff, <- not_true_iff_false, Qle_bool_iff.
  split; [apply Qnot_le_lt | apply Qlt_not_le].
Qed.

Lemma Qlt_bool_false a b : Qlt_bool a b = false ↔ (b <= a)%Q.
Proof.
  unfold Qlt_bool. rewrite negb_false_iff. apply Qle_bool_iff.
Qed.

Lemma avgDensity_spec tp (ta : Q) :
  ((0 < ta)%Q → avgDensity tp ta = Math_round (fl_div (inject_Z tp) ta))
  ∧ ((ta <= 0)%Q → avgDensity tp ta = 0).
Proof.
  unfold avgDensity. destruct (Qlt_bool 0 ta) eqn:E.
  - apply Qlt_bool_true in E. split; [done |].
    intros Hs. exfalso. by apply (Qlt_not_le _ _ E).
  - apply Qlt_bool_false in E. split; [| done].
    intros Hs. exfalso. by apply (Qlt_not_le _ _ Hs).
Qed.

Lemma updateUI_stats_consistent env st : stats_consistent env (updateUI env st).
Proof.
  destruct st as [sel layers t last [c v p a d e bp ib]].
  unfold stats_consistent, updateUI.
  destruct (0 <? length sel)%nat eqn:E.
  - destruct (stats_totals env sel) as [tp ta] eqn:Et.
    rewrite (updateStats_page_shown _ _ _ _ _ _ _ _ _ _ _ _ _ _ _ E Et).
    rewrite updateExportButton_page, updateBarPlots_page.
    cbn [selectedTownships page stat_count summary_stats_display
         stat_population stat_area stat_density].
    destruct (stats_totals_sums _ _ _ _ Et) as [Hp Ha].
    split; [done |]. split.
    { intros ->. cbn in E. done. }
    intros _. split; [done |]. split; [done |].
    rewrite <- Hp, <- Ha. split; [done |]. apply avgDensity_spec.
  - rewrite (updateStats_page_hidden _ _ _ _ _ _ _ _ _ _ _ _ _ E).
    rewrite updateExportButton_page, updateBarPlots_page.
    cbn [selectedTownships page stat_count summary_stats_display
         stat_population stat_area stat_density].
    apply Nat.ltb_ge in E. destruct sel; [| cbn in E; lia].
    split; [done |]. split; done.
Qed.

(** Every handler either leaves the selection alone or ends with
    [updateUI]. *)
Lemma handle_updates env ev st :
  selectedTownships (handle env ev st) = selectedTownships st
  ∨ ∃ st1, handle env ev st = updateUI env st1.
Proof.
  destruct ev as [x t | x | x | x | | | c | x]; cbn [handle].
  - unfold handleClick. destruct (bool_decide _ && _); [by left |].
    cbn [selectedTownships]. destruct (Set_has _ x); cbn [negb]; [by left |].
    right. unfold selectTownship. eauto.
  - unfold handleDoubleClick. destruct (Set_has _ x); [| by left].
    right. unfold deselectTownship. eauto.
  - left. apply (hover_selection env).
  - left. apply (hover_selection env).
  - right. unfold clearAllSelections. eauto.
  - right. unfold selectAllTownships. eauto.
  - right. unfold selectCounty. eauto.
  - right. unfold removeTownshipFromList, deselectTownship. eauto.
Qed.

(** C3, as stated, fails: with A (21/2 km2) selected the area shown is 11,
    not the sum 21/2. *)
Lemma displayed_area_is_rounded :
  selectedTownships fraction_A = ["A"]
  ∧ stat_area (page fraction_A) = 11
  ∧ (spec_total_area
       (selected_records fraction_env (selectedTownships fraction_A))
     == 21 # 2)%Q
  ∧ ¬ (inject_Z (stat_area (page fraction_A))
       == spec_total_area
            (selected_records fraction_env (selectedTownships fraction_A)))%Q.
Proof.
  split; [by vm_compute |]. split; [by vm_compute |].
  split; [by vm_compute |]. by vm_compute.
Qed.

(** The totals are double-precision sums, not the sums of the decimal
    figures.  Areas 0.6, 0.7 and 0.2 add up to 1.4999999999999998, so the
    page shows 1 where the decimal sum 1.5 would round to 2. *)
Example area_sum_in_doubles :
  let recs := selected_records tenths_env (selectedTownships tenths_all) in
  selectedTownships tenths_all = ["A"; "B"; "C"]
  ∧ (spec_total_area recs == 3 # 2)%Q
  ∧ (sum_area recs == 6755399441055743 # 4503599627370496)%Q
  ∧ stat_area (page tenths_all) = 1
  ∧ Math_round (spec_total_area recs) = 2.
Proof.
  split; [by vm_compute |]. split; [by vm_compute |].
  split; [by vm_compute |]. split; by vm_compute.
Qed.

(** Areas 0.4 and 0.8 add up to 1.2000000000000002; three inhabitants on
    them give 2.4999999999999996 per km2, shown as 2, where the decimal
    quotient 2.5 would round to 3. *)
Example density_quotient_in_doubles :
  let recs := selected_records fifths_env (selectedTownships fifths_all) in
  (spec_total_area recs == 12 # 10)%Q
  ∧ stat_population (page fifths_all) = 3
  ∧ stat_density (page fifths_all) = 2
  ∧ Math_round (inject_Z 3 / spec_total_area recs) = 3.
Proof.
  split; [by vm_compute |]. split; [by vm_compute |]. split; by vm_compute.
Qed.

(** C3 (amended). After every event that changes the selection, the count
    shown is the size of the selection; when the selection is not empty the
    summary is shown with the total population equal to the sum of the
    recorded populations of the selected regions (a region without a record
    adds nothing), the total area equal to the double-precision sum of
    their recorded areas, added from 0 in selection order, rounded to the
    nearest integer, and the average density equal to the double-precision
    quotient of the population sum by the unrounded area sum, rounded to
    the nearest integer, when the area sum is positive and 0 otherwise;
    when the selection is empty the summary is hidden. *)
Theorem stats_after_mutation (env : Env) (ev : Event) (st : State) :
  selectedTownships (handle env ev st) ≠ selectedTownships st →
  stats_consistent env (handle env ev st).
Proof.
  intros Hne. destruct (handle_updates env ev st) as [H | [st1 ->]]; [done |].
  apply updateUI_stats_consistent.
Qed.

Lemma stats_after_mutation_witness :
  stats_consistent sample_env (handle sample_env EvSelectAll sample_A).
Proof.
  apply (stats_after_mutation sample_env EvSelectAll sample_A).
  vm_compute. discriminate.
Defined.

(** The scenario of the specification: A (100 on 10 km2) and B (400 on
    20 km2); after select-all the page shows 2 regions, 500 inhabitants,
    30 km2 and 17 per km2. *)
Example scenario_select_all :
  let p := page (handle scenario_env EvSelectAll
                   (createGeoJSONLayer scenario_env initial_state)) in
  stat_count p = (2%nat, 2%nat) ∧ stat_population p = 500
  ∧ stat_area p = 30 ∧ stat_density p = 17.
Proof. by vm_compute. Qed.

(** With an empty selection the three figures keep their former text. *)
Lemma updateStats_empty_keeps env st :
  selectedTownships st = [] →
  let p := page (updateStats env st) in
  summary_stats_display p = false
  ∧ stat_population p = stat_population (page st)
  ∧ stat_area p = stat_area (page st)
  ∧ stat_density p = stat_density (page st).
Proof. intros H. unfold updateStats. rewrite H. by cbn. Qed.

(** ** Export *)

Lemma export_loop env sel : ∀ data,
  foldl (λ data fullname,
           match find_feature env fullname, populationData env !! fullname with
           | Some feature, Some popData =>
               (data ++ [mkExportRow fullname (COUNTYNAME feature)
                                     (TOWNNAME feature) (population popData)
                                     (area popData) (density popData)])%list
           | _, _ => data
           end) data sel
  = (data ++ rows_of_selection env sel)%list.
Proof.
  induction sel as [|n sel IH]; intros data; cbn [foldl].
  - unfold rows_of_selection. cbn [omap list_omap]. by rewrite app_nil_r.
  - rewrite IH. unfold rows_of_selection. cbn [omap list_omap].
    unfold export_row at 2.
    destruct (find_feature env n) as [f|];
      destruct (populationData env !! n) as [d|]; try reflexivity.
    by rewrite <- app_assoc.
Qed.

Lemma export_rows_spec env sel : export_rows env sel = rows_of_selection env sel.
Proof. unfold export_rows. by rewrite export_loop. Qed.

Lemma find_feature_Some env x :
  x ∈ region_names env → ∃ f, find_feature env x = Some f ∧ FULLNAME f = x.
Proof.
  unfold region_names, find_feature.
  intros (f & -> & Hf)%list_elem_of_fmap.
  destruct (find _ (features env)) as [g|] eqn:E.
  - exists g. split; [done |]. apply find_some in E as [_ E].
    by apply bool_decide_eq_true in E.
  - exfalso. apply list_elem_of_In in Hf.
    pose proof (find_none _ _ E f Hf) as H. cbv beta in H.
    by rewrite bool_decide_eq_true_2 in H.
Qed.

Lemma export_row_township env x r : export_row env x = Some r → Township r = x.
Proof.
  unfold export_row. destruct (find_feature env x); [| done].
  destruct (populationData env !! x); [| done]. by intros [= <-].
Qed.

Lemma rows_of_selection_names env sel :
  Township <$> rows_of_selection env sel
  = filter (λ x, is_Some (export_row env x)) sel.
Proof.
  unfold rows_of_selection. induction sel as [|x sel IH]; [done |].
  cbn [omap list_omap]. destruct (export_row env x) as [r|] eqn:E.
  - rewrite filter_cons_True by (rewrite E; eauto).
    cbn [fmap list_fmap]. rewrite (export_row_township _ _ _ E). f_equal. apply IH.
  - rewrite filter_cons_False by (rewrite E; apply is_Some_None). apply IH.
Qed.

(** C5, as stated, fails: with A and C selected, C having no population
    record, the file has the header and the row of A only, one data row for
    two selected regions. *)
Lemma export_skips_region_without_record :
  selectedTownships sample_AC = ["A"; "C"]
  ∧ exportData sample_env sample_AC
    = Download "taiwan_townships_selected.csv"
        [CellText <$> row_keys;
         [CellText "A"; CellText "X"; CellText "a";
          CellInt 100; CellNumber 10; CellNumber 10]].
Proof. split; by vm_compute. Qed.

(** When no selected region has a record the handler fails on
    [Object.keys(data[0])] and no file is produced. *)
Lemma export_without_any_record :
  selectedTownships sample_C = ["C"]
  ∧ exportData sample_env sample_C = ThrowsTypeError.
Proof. split; by vm_compute. Qed.

(** C5 (amended). With an empty selection the export only shows the notice
    and produces no file.  With a selection in which some region has a
    population record it downloads a CSV whose first line is the header
    Township,County,District,Population,Area_km2,Density, followed by one
    line per selected region that has a population record, in selection
    order, carrying the name, county, district and the recorded population,
    area and density of that region; when every selected region is a region
    of the dataset with a record, that is one line per selected region. *)
Theorem exportData_outcome (env : Env) (st : State) :
  (selectedTownships st = [] → exportData env st = ToastNotice)
  ∧ (rows_of_selection env (selectedTownships st) ≠ [] →
     exportData env st
     = Download "taiwan_townships_selected.csv"
         ((CellText <$> row_keys)
            :: (row_cells <$> rows_of_selection env (selectedTownships st)))
     ∧ Township <$> rows_of_selection env (selectedTownships st)
       = filter (λ x, is_Some (export_row env x)) (selectedTownships st))
  ∧ (selectedTownships st ≠ [] →
     (∀ x, x ∈ selectedTownships st →
           x ∈ region_names env ∧ is_Some (populationData env !! x)) →
     ∃ lines,
       exportData env st
       = Download "taiwan_townships_selected.csv"
                  ((CellText <$> row_keys) :: lines)
       ∧ Forall2 (λ x line,
                    ∃ f d, find_feature env x = Some f
                           ∧ populationData env !! x = Some d
                           ∧ line = [CellText x; CellText (COUNTYNAME f);
                                     CellText (TOWNNAME f);
                                     CellInt (population d);
                                     CellNumber (area d);
                                     CellNumber (density d)])
                 (selectedTownships st) lines).
Proof.
  split; [| split].
  - intros H. unfold exportData. by rewrite H.
  - intros H. split; [| apply rows_of_selection_names].
    unfold exportData. rewrite export_rows_spec.
    destruct (selectedTownships st) as [|x sel] eqn:E; [done |].
    rewrite bool_decide_eq_false_2 by done.
    by destruct (rows_of_selection env (x :: sel)).
  - intros Hne Hall.
    assert (Forall2 (λ x r, ∃ f d, find_feature env x = Some f
                             ∧ populationData env !! x = Some d
                             ∧ row_cells r
                               = [CellText x; CellText (COUNTYNAME f);
                                  CellText (TOWNNAME f); CellInt (population d);
                                  CellNumber (area d); CellNumber (density d)])
                    (selectedTownships st)
                    (rows_of_selection env (selectedTownships st))) as HF.
    { clear Hne. induction (selectedTownships st) as [|x sel IH];
        [constructor |].
      destruct (Hall x) as [Hx [d Hd]]; [left |].
      destruct (find_feature_Some env x Hx) as (f & Hf & _).
      unfold rows_of_selection. cbn [omap list_omap].
      unfold export_row at 1. rewrite Hf, Hd. constructor.
      - exists f, d. done.
      - apply IH. intros y Hy. apply Hall. by right. }
    exists (row_cells <$> rows_of_selection env (selectedTownships st)).
    split.
    + unfold exportData. rewrite export_rows_spec.
      rewrite bool_decide_eq_false_2
        by (by destruct (selectedTownships st)).
      destruct (rows_of_selection env (selectedTownships st)) eqn:E; [| done].
      destruct (selectedTownships st); [done |]. inversion HF.
    + apply Forall2_fmap_r. done.
Qed.

Lemma exportData_outcome_witness :
  exportData sample_env sample_start = ToastNotice
  ∧ (∃ lines,
       exportData sample_env sample_AB
       = Download "taiwan_townships_selected.csv"
                  ((CellText <$> row_keys) :: lines)
       ∧ length lines = 2%nat).
Proof.
  destruct (exportData_outcome sample_env sample_start) as (H1 & _ & _).
  destruct (exportData_outcome sample_env sample_AB) as (_ & _ & H3).
  split.
  - apply H1. vm_compute. reflexivity.
  - destruct H3 as (lines & Hl & HF).
    + vm_compute. discriminate.
    + intros x Hx.
      assert (x = "A" ∨ x = "B") as [-> | ->].
      { change (selectedTownships sample_AB) with ["A"; "B"] in Hx.
        rewrite !elem_of_cons, elem_of_nil in Hx. tauto. }
      * split; [apply (bool_decide_unpack _); by vm_compute |].
        vm_compute. eexists. reflexivity.
      * split; [apply (bool_decide_unpack _); by vm_compute |].
        vm_compute. eexists. reflexivity.
    + exists lines. split; [done |].
      apply Forall2_length in HF. rewrite <- HF. vm_compute. reflexivity.
Defined.

(** ** Bar charts *)

Section ArraySort.
Context {A : Type} (cmp : A → A → Q) (R : A → A → Prop).
Hypothesis R_trans : Transitive R.
Hypothesis cmp_after : ∀ x y, Qlt_bool 0 (cmp x y) = true → R y x.
Hypothesis cmp_keep : ∀ x y, Qlt_bool 0 (cmp x y) = false → R x y.

Lemma insert_by_perm x l : insert_by cmp x l ≡ₚ x :: l.
Proof.
  induction l as [|y l IH]; cbn [insert_by]; [done |].
  destruct (Qlt_bool 0 (cmp x y)); [| done].
  rewrite IH. apply Permutation_swap.
Qed.

Lemma insert_by_sorted x l :
  StronglySorted R l → StronglySorted R (insert_by cmp x l).
Proof.
  induction 1 as [|y l Hl IH Hy]; cbn [insert_by].
  - repeat constructor.
  - destruct (Qlt_bool 0 (cmp x y)) eqn:E.
    + constructor; [done |].
      rewrite insert_by_perm. constructor; [by apply cmp_after | done].
    + constructor; [by constructor |].
      constructor; [by apply cmp_keep |].
      eapply Forall_impl; [exact Hy |].
      intros z Hz. etrans; [by apply cmp_keep | done].
Qed.

Lemma Array_sort_perm l : Array_sort cmp l ≡ₚ l.
Proof.
  unfold Array_sort. induction l as [|x l IH]; cbn [foldr]; [done |].
  by rewrite insert_by_perm, IH.
Qed.

Lemma Array_sort_sorted l : StronglySorted R (Array_sort cmp l).
Proof.
  unfold Array_sort. induction l as [|x l IH]; cbn [foldr].
  - constructor.
  - by apply insert_by_sorted.
Qed.
End ArraySort.

Lemma sort_by_density_descending l :
  descending d_density (Array_sort by_density l).
Proof.
  apply Array_sort_sorted.
  - intros a b c Hab Hbc. by apply Qle_trans with (d_density b).
  - intros x y H%Qlt_bool_true. unfold by_density in H. lra.
  - intros x y H%Qlt_bool_false. unfold by_density in H. lra.
Qed.

Lemma sort_by_population_descending l :
  descending (λ d, inject_Z (d_population d)) (Array_sort by_population l).
Proof.
  apply Array_sort_sorted.
  - intros a b c Hab Hbc.
    by apply Qle_trans with (inject_Z (d_population b)).
  - intros x y H%Qlt_bool_true. unfold by_population in H.
    rewrite <- Zle_Qle. change 0%Q with (inject_Z 0) in H.
    rewrite <- Zlt_Qlt in H. lia.
  - intros x y H%Qlt_bool_false. unfold by_population in H.
    rewrite <- Zle_Qle. change 0%Q with (inject_Z 0) in H.
    rewrite <- Zle_Qle in H. lia.
Qed.

Lemma selectedData_loop env sel : ∀ acc,
  foldl (λ acc fullname,
           match populationData env !! fullname with
           | Some data =>
               (acc ++ [mkBarDatum fullname (population data) (density data)
                                   (area data)])%list
           | None => acc
           end) acc sel
  = (acc ++ omap (datum_of env) sel)%list.
Proof.
  induction sel as [|n sel IH]; intros acc; cbn [foldl omap list_omap].
  - by rewrite app_nil_r.
  - rewrite IH. unfold datum_of at 2.
    destruct (populationData env !! n); [| done]. by rewrite <- app_assoc.
Qed.

Lemma selectedData_spec env sel : selectedData env sel = omap (datum_of env) sel.
Proof. unfold selectedData. by rewrite selectedData_loop. Qed.

Lemma Qle_bool_false (a b : Q) : (b < a)%Q → Qle_bool a b = false.
Proof.
  intros H. apply not_true_is_false. rewrite Qle_bool_iff.
  by apply Qlt_not_le.
Qed.

(** [renderChart] in a container that is laid out. *)
Lemma renderChart_sized w h data old :
  (0 < w)%Q → (104 < h)%Q →
  renderChart (Some (w, h)) data old
  = match data with
    | [] => PlaceholderText
    | _ => if (maxVisibleBars <? length data)%nat
           then scrolling_chart w h data else fitted_chart w h data
    end.
Proof.
  intros Hw Hh. unfold renderChart.
  rewrite (Qle_bool_false w 0 Hw), (Qle_bool_false h 0) by lra.
  cbn [orb]. destruct data as [|d data]; [done |].
  rewrite bool_decide_eq_false_2 by done.
  destruct (maxVisibleBars <? length (d :: data))%nat.
  - rewrite Qle_bool_false; [done |].
    unfold scrollbarHeight, margin_top, bottomMargin. lra.
  - rewrite Qle_bool_false; [done |].
    unfold margin_top, bottomMargin. lra.
Qed.

Lemma BarPlots_update_ready env data bp dc pc :
  d3_defined env = true →
  density_container env = Some dc →
  population_container env = Some pc →
  BarPlots_update env data bp
  = mkBarPlots true data
      (renderChart (Some dc) (Array_sort by_density data) EmptyContainer)
      (renderChart (Some pc) (Array_sort by_population data) EmptyContainer).
Proof.
  intros Hd3 Hdc Hpc. unfold BarPlots_update, BarPlots_init.
  rewrite Hd3, Hdc, Hpc. destruct dc as [wd hd], pc as [wp hp].
  destruct bp as [ini ld dv pv]. destruct ini; reflexivity.
Qed.

Lemma charts_updateUI env st :
  charts (page (updateUI env st))
  = BarPlots_update env (selectedData env (selectedTownships st))
                    (charts (page st)).
Proof.
  unfold updateUI. rewrite updateBarPlots_page'.
  destruct (updateExportButton_page' (updateStats env st)) as [-> ->].
  unfold updateStats.
  destruct (0 <? _)%nat; [destruct (stats_totals _ _) |]; reflexivity.
Qed.

(** C8, as stated, fails: with A and C selected, C having no population
    record, both charts have the single bar of A. *)
Lemma charts_skip_region_without_record :
  selectedTownships sample_AC = ["A"; "C"]
  ∧ density_bar_plot (charts (page sample_AC))
    = fitted_chart 800 300 [mkBarDatum "A" 100 10 10]
  ∧ population_bar_plot (charts (page sample_AC))
    = fitted_chart 800 300 [mkBarDatum "A" 100 10 10].
Proof. repeat split; by vm_compute. Qed.

(** A chart container without width gets the loading text, whatever is
    selected; a selection without any record gets the placeholder. *)
Lemma chart_in_unsized_container :
  density_bar_plot
    (charts (page (handle unsized_env (EvClick "A" 1000) sample_start)))
  = LoadingText.
Proof. by vm_compute. Qed.

Lemma placeholder_for_selection_without_record :
  selectedTownships sample_C = ["C"]
  ∧ density_bar_plot (charts (page sample_C)) = PlaceholderText.
Proof. split; by vm_compute. Qed.

(** C8 (amended). When D3 is loaded and both chart containers are laid out
    (positive width, height above 104 px), every update leaves two charts
    over exactly the selected regions that have a population record, one
    with the bars in descending order of density and one in descending order
    of population; when no selected region has a record (in particular when
    nothing is selected) both show the placeholder prompt; and the charts
    are fitted to the container width when there are at most 15 bars and
    have a fixed bar width with horizontal scrolling when there are more
    than 15. *)
Theorem barplots_after_update (env : Env) (st : State) (wd hd wp hp : Q) :
  d3_defined env = true →
  density_container env = Some (wd, hd) →
  population_container env = Some (wp, hp) →
  (0 < wd)%Q → (104 < hd)%Q → (0 < wp)%Q → (104 < hp)%Q →
  let data := omap (datum_of env) (selectedTownships st) in
  let bp := charts (page (updateUI env st)) in
  (data = [] →
   density_bar_plot bp = PlaceholderText
   ∧ population_bar_plot bp = PlaceholderText)
  ∧ (data ≠ [] →
     ∃ by_d by_p,
       by_d ≡ₚ data ∧ descending d_density by_d
       ∧ by_p ≡ₚ data ∧ descending (λ d, inject_Z (d_population d)) by_p
       ∧ ((length data ≤ 15)%nat →
          density_bar_plot bp = fitted_chart wd hd by_d
          ∧ population_bar_plot bp = fitted_chart wp hp by_p)
       ∧ ((15 < length data)%nat →
          density_bar_plot bp = scrolling_chart wd hd by_d
          ∧ population_bar_plot bp = scrolling_chart wp hp by_p)).
Proof.
  intros Hd3 Hdc Hpc Hwd Hhd Hwp Hhp data bp.
  assert (bp = mkBarPlots true data
                 (renderChart (Some (wd, hd)) (Array_sort by_density data)
                              EmptyContainer)
                 (renderChart (Some (wp, hp)) (Array_sort by_population data)
                              EmptyContainer)) as ->.
  { unfold bp, data. rewrite charts_updateUI, selectedData_spec.
    by apply BarPlots_update_ready. }
  cbn [density_bar_plot population_bar_plot].
  rewrite !renderChart_sized by done.
  pose proof (Array_sort_perm by_density data) as Pd.
  pose proof (Array_sort_perm by_population data) as Pp.
  split.
  - intros ->. done.
  - intros Hne. exists (Array_sort by_density data), (Array_sort by_population data).
    split; [done |]. split; [apply sort_by_density_descending |].
    split; [done |]. split; [apply sort_by_population_descending |].
    pose proof (Permutation_length Pd) as Ld.
    pose proof (Permutation_length Pp) as Lp.
    destruct (Array_sort by_density data) as [|d1 sd] eqn:Ed.
    { apply Permutation_nil in Pd. done. }
    destruct (Array_sort by_population data) as [|p1 sp] eqn:Ep.
    { apply Permutation_nil in Pp. done. }
    rewrite Ld, Lp. unfold maxVisibleBars. split; intros Hlen.
    + apply Nat.ltb_ge in Hlen. by rewrite Hlen.
    + apply Nat.ltb_lt in Hlen. by rewrite Hlen.
Qed.

Lemma barplots_after_update_witness :
  (∃ by_d by_p,
     by_d ≡ₚ omap (datum_of sample_env) (selectedTownships sample_AB)
     ∧ descending d_density by_d
     ∧ density_bar_plot (charts (page (updateUI sample_env sample_AB)))
       = fitted_chart 800 300 by_d
     ∧ population_bar_plot (charts (page (updateUI sample_env sample_AB)))
       = fitted_chart 800 300 by_p)
  ∧ (∃ by_d by_p,
       by_p ≡ₚ omap (datum_of sixteen_env) (selectedTownships sixteen_all)
       ∧ descending (λ d, inject_Z (d_population d)) by_p
       ∧ density_bar_plot (charts (page (updateUI sixteen_env sixteen_all)))
         = scrolling_chart 800 300 by_d
       ∧ population_bar_plot (charts (page (updateUI sixteen_env sixteen_all)))
         = scrolling_chart 800 300 by_p).
Proof.
  split.
  - destruct (barplots_after_update sample_env sample_AB 800 300 800 300)
      as [_ H]; try reflexivity.
    destruct H as (by_d & by_p & H1 & H2 & H3 & H4 & H5 & _).
    { vm_compute. discriminate. }
    destruct H5 as [H5 H6]; [vm_compute; lia |].
    exists by_d, by_p. exact (conj H1 (conj H2 (conj H5 H6))).
  - destruct (barplots_after_update sixteen_env sixteen_all 800 300 800 300)
      as [_ H]; try reflexivity.
    destruct H as (by_d & by_p & H1 & H2 & H3 & H4 & _ & H5).
    { vm_compute. discriminate. }
    destruct H5 as [H5 H6]; [vm_compute; lia |].
    exists by_d, by_p. exact (conj H3 (conj H4 (conj H5 H6))).
Defined.

(** ** The selection list has no duplicates *)

Lemma foldl_invariant {S X} (P : S → Prop) (f : S → X → S) (l : list X) :
  (∀ s x, P s → P (f s x)) → ∀ s, P s → P (foldl f s l).
Proof.
  intros Hf. induction l as [|x l IH]; intros s Hs; cbn [foldl]; [done |].
  apply IH, Hf, Hs.
Qed.

(** Every handler keeps the selection a list without repetition, as a
    JavaScript [Set] is. *)
Lemma NoDup_handle env ev st :
  NoDup (selectedTownships st) → NoDup (selectedTownships (handle env ev st)).
Proof.
  intros Hst. destruct ev as [x t | x | x | x | | | c | x]; cbn [handle].
  - unfold handleClick. destruct (bool_decide _ && _); [done |].
    cbn [selectedTownships]. destruct (Set_has _ x); cbn [negb]; [done |].
    rewrite selected_selectTownship. by apply NoDup_Set_add.
  - unfold handleDoubleClick. destruct (Set_has _ x); [| done].
    rewrite selected_deselectTownship. by apply NoDup_Set_delete.
  - by rewrite (proj1 (hover_selection env x st)).
  - by rewrite (proj2 (hover_selection env x st)).
  - unfold clearAllSelections. rewrite selected_updateUI. apply NoDup_nil_2.
  - unfold selectAllTownships. rewrite selected_updateUI.
    apply (foldl_invariant (λ s, NoDup (selectedTownships s))); [| done].
    intros s f Hs. rewrite selected_selectTownship. by apply NoDup_Set_add.
  - unfold selectCounty. rewrite selected_updateUI.
    destruct (allSelected env c st).
    + apply (foldl_invariant (λ s, NoDup (selectedTownships s))); [| done].
      intros s n Hs. rewrite selected_deselectTownship.
      by apply NoDup_Set_delete.
    + apply (foldl_invariant (λ s, NoDup (selectedTownships s))); [| done].
      intros s n Hs. destruct (Set_has _ n); [done |].
      rewrite selected_selectTownship. by apply NoDup_Set_add.
  - unfold removeTownshipFromList. rewrite selected_deselectTownship.
    by apply NoDup_Set_delete.
Qed.

Lemma NoDup_run env evs : ∀ st,
  NoDup (selectedTownships st) → NoDup (selectedTownships (run env evs st)).
Proof.
  unfold run. induction evs as [|ev evs IH]; intros st Hst; cbn [foldl];
    [done |].
  by apply IH, NoDup_handle.
Qed.

(** ** The text of the exported file *)

Lemma csv_text_header show rows :
  (∀ s, show (CellText s) = s) →
  csv_text show ((CellText <$> row_keys) :: rows)
  = BOM ++ String.concat newline
             ("Township,County,District,Population,Area_km2,Density"
                :: (String.concat "," <$> (fmap show <$> rows))).
Proof.
  intros Hshow. unfold csv_text, row_keys.
  cbn [fmap list_fmap]. rewrite !Hshow. reflexivity.
Qed.

(** The scenario again: the chart by density orders B before A. *)
Example scenario_density_order :
  density_bar_plot
    (charts (page (handle scenario_env EvSelectAll
                     (createGeoJSONLayer scenario_env initial_state))))
  = fitted_chart 800 300 [mkBarDatum "B" 400 20 20; mkBarDatum "A" 100 10 10].
Proof. by vm_compute. Qed.

(** * Further properties of the selection store *)

Lemma Set_add_present s x : x ∈ s → Set_add x s = s.
Proof.
  intros H. unfold Set_add. by rewrite (proj2 (Set_has_true s x) H).
Qed.

Lemma Set_add_idemp s x : Set_add x (Set_add x s) = Set_add x s.
Proof. apply Set_add_present, elem_of_Set_add. by left. Qed.

Lemma Set_delete_add s x : x ∉ s → Set_delete x (Set_add x s) = s.
Proof.
  intros H. unfold Set_add. rewrite (proj2 (Set_has_false s x) H).
  unfold Set_delete. rewrite filter_app, filter_cons_False by (intros ?; done).
  rewrite filter_nil, app_nil_r. by apply Set_delete_absent.
Qed.

Lemma Set_add_delete s x :
  Set_add x (Set_delete x s) = (Set_delete x s ++ [x])%list.
Proof.
  unfold Set_add. rewrite (proj2 (Set_has_false _ x)); [done |].
  rewrite elem_of_Set_delete. tauto.
Qed.

Lemma layers_selectTownship env x flag st :
  townshipLayers (selectTownship env x flag st)
  = alter (setStyle_border BORDER_SELECTED) x (townshipLayers st).
Proof.
  unfold selectTownship. destruct flag; [rewrite layers_updateUI |]; done.
Qed.

Lemma layers_deselectTownship env x flag st :
  townshipLayers (deselectTownship env x flag st)
  = alter (setStyle_border BORDER_UNSELECTED) x (townshipLayers st).
Proof.
  unfold deselectTownship. destruct flag; [rewrite layers_updateUI |]; done.
Qed.

(** X1. [selectTownship] is idempotent: on a name that is already selected
    it leaves the selection list as it is (the name keeps its place), and a
    second call in a row yields the state of the first. *)
Theorem selectTownship_idempotent
    (env : Env) (fullname : string) (updateUIFlag : bool) (st : State) :
  (fullname ∈ selectedTownships st →
   selectedTownships (selectTownship env fullname updateUIFlag st)
   = selectedTownships st)
  ∧ selectTownship env fullname updateUIFlag
      (selectTownship env fullname updateUIFlag st)
    = selectTownship env fullname updateUIFlag st.
Proof.
  split.
  - intros H. rewrite selected_selectTownship. by apply Set_add_present.
  - unfold selectTownship at 1.
    rewrite selected_selectTownship, Set_add_idemp, layers_selectTownship.
    rewrite setStyle_border_twice.
    rewrite <- (selected_selectTownship env fullname updateUIFlag st).
    rewrite <- (layers_selectTownship env fullname updateUIFlag st).
    rewrite set_selection_same.
    destruct updateUIFlag; [| reflexivity].
    unfold selectTownship. apply updateUI_twice.
Qed.

Lemma selectTownship_idempotent_witness :
  selectedTownships (selectTownship sample_env "A" true sample_AB)
  = selectedTownships sample_AB.
Proof.
  apply (proj1 (selectTownship_idempotent sample_env "A" true sample_AB)).
  vm_compute. apply list_elem_of_here.
Defined.

(** X2. Selecting a region that was not selected and deselecting it again
    gives back the selection list exactly, order included; deselecting a
    selected region and selecting it again keeps the same members but moves
    the region to the end of the iteration order. *)
Theorem select_deselect_round_trip
    (env : Env) (fullname : string) (f1 f2 : bool) (st : State) :
  (fullname ∉ selectedTownships st →
   selectedTownships
     (deselectTownship env fullname f2 (selectTownship env fullname f1 st))
   = selectedTownships st)
  ∧ (fullname ∈ selectedTownships st →
     selectedTownships
       (selectTownship env fullname f2 (deselectTownship env fullname f1 st))
     = (Set_delete fullname (selectedTownships st) ++ [fullname])%list
     ∧ selection
         (selectTownship env fullname f2 (deselectTownship env fullname f1 st))
       = selection st).
Proof.
  split.
  - intros H. rewrite selected_deselectTownship, selected_selectTownship.
    by apply Set_delete_add.
  - intros H. split.
    + rewrite selected_selectTownship, selected_deselectTownship.
      apply Set_add_delete.
    + unfold selection.
      rewrite selected_selectTownship, selected_deselectTownship.
      rewrite selection_Set_add, selection_Set_delete.
      apply set_eq. intros y.
      rewrite elem_of_union, elem_of_difference, elem_of_singleton,
        elem_of_list_to_set.
      destruct (decide (y = fullname)) as [-> | ?]; tauto.
Qed.

Lemma select_deselect_round_trip_witness :
  selectedTownships
    (deselectTownship sample_env "C" true
       (selectTownship sample_env "C" true sample_AB))
  = selectedTownships sample_AB
  ∧ selectedTownships
      (selectTownship sample_env "A" true
         (deselectTownship sample_env "A" true sample_AB))
    = ["B"; "A"].
Proof.
  destruct (select_deselect_round_trip sample_env "C" true true sample_AB)
    as [H1 _].
  destruct (select_deselect_round_trip sample_env "A" true true sample_AB)
    as [_ H2].
  split.
  - apply H1. apply (bool_decide_unpack _). vm_compute. exact I.
  - destruct H2 as [H2 _]; [vm_compute; apply list_elem_of_here |].
    rewrite H2. vm_compute. reflexivity.
Defined.

Lemma selectCounty_cases env c st :
  (county_set env c ⊆ selection st
   ∧ selection (selectCounty env c st) = selection st ∖ county_set env c)
  ∨ (county_set env c ⊈ selection st
     ∧ selection (selectCounty env c st) = selection st ∪ county_set env c).
Proof.
  destruct (allSelected env c st) eqn:E.
  - left. split; [by apply allSelected_true | by apply selectCounty_off].
  - right. split; [| by apply selectCounty_on].
    rewrite <- allSelected_true. congruence.
Qed.

(** X3. After [selectCounty] the county is never partially selected: either
    all of its regions are selected or none is; and the regions outside the
    county are selected exactly as before. *)
Theorem selectCounty_all_or_none (env : Env) (countyName : string) (st : State) :
  (county_set env countyName ⊆ selection (selectCounty env countyName st)
   ∨ county_set env countyName ## selection (selectCounty env countyName st))
  ∧ selection (selectCounty env countyName st) ∖ county_set env countyName
    = selection st ∖ county_set env countyName.
Proof.
  destruct (selectCounty_cases env countyName st) as [[_ ->] | [_ ->]].
  - split.
    + right. intros x Hx. rewrite elem_of_difference. tauto.
    + apply set_eq. intros x. rewrite !elem_of_difference. tauto.
  - split.
    + left. apply union_subseteq_r.
    + apply set_eq. intros x.
      rewrite !elem_of_difference, elem_of_union. tauto.
Qed.

(** X4. Three calls of [selectCounty] in a row leave the selection that one
    call leaves, from every state (a partially selected county included). *)
Theorem selectCounty_thrice (env : Env) (countyName : string) (st : State) :
  selection (selectCounty env countyName
               (selectCounty env countyName (selectCounty env countyName st)))
  = selection (selectCounty env countyName st).
Proof.
  set (C := county_set env countyName).
  set (s1 := selectCounty env countyName st).
  set (s2 := selectCounty env countyName s1).
  assert (∀ S : gset string, C ⊆ S ∪ C) as Hfull by (intros S; apply union_subseteq_r).
  destruct (selectCounty_cases env countyName st) as [[H1 E1] | [H1 E1]];
    fold C s1 in H1, E1.
  - destruct (selectCounty_cases env countyName s1) as [[H2 E2] | [H2 E2]];
      fold C s2 in H2, E2.
    + destruct (selectCounty_cases env countyName s2) as [[H3 E3] | [H3 E3]];
        fold C in H3, E3.
      * rewrite E3, E2, E1. apply set_eq. intros x.
        rewrite !elem_of_difference. tauto.
      * exfalso. apply H3. rewrite E2. intros x Hx.
        rewrite elem_of_difference. split; [by apply H2 |].
        pose proof (H2 x Hx) as Hx1. rewrite E1, elem_of_difference in Hx1.
        tauto.
    + destruct (selectCounty_cases env countyName s2) as [[H3 E3] | [H3 E3]];
        fold C in H3, E3.
      * rewrite E3, E2, E1. apply set_eq. intros x.
        rewrite !elem_of_difference, elem_of_union, elem_of_difference. tauto.
      * exfalso. apply H3. rewrite E2. apply Hfull.
  - destruct (selectCounty_cases env countyName s1) as [[H2 E2] | [H2 E2]];
      fold C s2 in H2, E2.
    2: { exfalso. apply H2. rewrite E1. apply Hfull. }
    destruct (selectCounty_cases env countyName s2) as [[H3 E3] | [H3 E3]];
      fold C in H3, E3.
    + rewrite E3, E2, E1. rewrite E2, E1 in H3. apply set_eq. intros x.
      rewrite !elem_of_difference, !elem_of_union.
      destruct (decide (x ∈ C)) as [HC | HC]; [| tauto].
      pose proof (H3 x HC) as Hx. rewrite elem_of_difference in Hx. tauto.
    + rewrite E3, E2, E1. apply set_eq. intros x.
      rewrite !elem_of_union, elem_of_difference, elem_of_union.
      destruct (decide (x ∈ C)); tauto.
Qed.

(** X5. [selectAllTownships] adds every region of the dataset to the
    selection; after it every county counts as fully selected, so that the
    next [selectCounty] removes exactly the regions of its county. *)
Theorem selectAll_then_county (env : Env) (countyName : string) (st : State) :
  selection (selectAllTownships env st) = selection st ∪ region_set env
  ∧ allSelected env countyName (selectAllTownships env st) = true
  ∧ selection (selectCounty env countyName (selectAllTownships env st))
    = (selection st ∪ region_set env) ∖ county_set env countyName.
Proof.
  pose proof (selectAllTownships_selection env st) as Hall.
  assert (allSelected env countyName (selectAllTownships env st) = true) as Hc.
  { apply allSelected_true. rewrite Hall.
    etrans; [apply county_set_regions | apply union_subseteq_r]. }
  split; [done |]. split; [done |].
  by rewrite (selectCounty_off _ _ _ Hc), Hall.
Qed.

(** ** What [updateUI] writes *)

Lemma updateUI_fields env st :
  stat_count (page (updateUI env st))
  = (length (selectedTownships st), totalTownships env)
  ∧ summary_stats_display (page (updateUI env st))
    = (0 <? length (selectedTownships st))%nat
  ∧ btn_export_disabled (page (updateUI env st))
    = bool_decide (length (selectedTownships st) = 0%nat).
Proof.
  destruct st as [sel layers t last [c v p a d e bp ib]]. unfold updateUI.
  cbn [selectedTownships].
  destruct (0 <? length sel)%nat eqn:E.
  - destruct (stats_totals env sel) as [tp ta] eqn:Et.
    rewrite (updateStats_page_shown _ _ _ _ _ _ _ _ _ _ _ _ _ _ _ E Et).
    by rewrite updateExportButton_page, updateBarPlots_page.
  - rewrite (updateStats_page_hidden _ _ _ _ _ _ _ _ _ _ _ _ _ E).
    by rewrite updateExportButton_page, updateBarPlots_page.
Qed.

(** [updateUI] reads the selection and the page, and writes the page. *)
Lemma updateUI_frame env sel l t la p l' t' la' :
  updateUI env (mkState sel l t la p)
  = mkState sel l t la (page (updateUI env (mkState sel l' t' la' p))).
Proof.
  destruct p as [c v p a d e bp ib]. unfold updateUI.
  destruct (0 <? length sel)%nat eqn:E.
  - destruct (stats_totals env sel) as [tp ta] eqn:Et.
    rewrite !(updateStats_page_shown _ _ _ _ _ _ _ _ _ _ _ _ _ _ _ E Et).
    by rewrite !updateExportButton_page, !updateBarPlots_page.
  - rewrite !(updateStats_page_hidden _ _ _ _ _ _ _ _ _ _ _ _ _ E).
    by rewrite !updateExportButton_page, !updateBarPlots_page.
Qed.

Lemma in_sync_frame env sel l t la p l' t' la' :
  updateUI env (mkState sel l t la p) = mkState sel l t la p →
  updateUI env (mkState sel l' t' la' p) = mkState sel l' t' la' p.
Proof.
  intros H. rewrite (updateUI_frame env sel l' t' la' p l t la), H.
  reflexivity.
Qed.

Lemma clear_layers (f : PathStyle → PathStyle) (l : list string) :
  (∀ s, f (f s) = f s) →
  ∀ (m : gmap string PathStyle) y,
    foldl (λ m x, alter f x m) m l !! y
    = if decide (y ∈ l) then f <$> m !! y else m !! y.
Proof.
  intros Hf. induction l as [|x l IH]; intros m y; cbn [foldl].
  - rewrite decide_False; [done | apply not_elem_of_nil].
  - rewrite IH. destruct (decide (x = y)) as [-> | Hne].
    + rewrite lookup_alter_eq, (decide_True (P := y ∈ y :: l))
        by apply list_elem_of_here.
      destruct (decide (y ∈ l)); [| done].
      destruct (m !! y); cbn; [by rewrite Hf | done].
    + rewrite lookup_alter_ne by done.
      destruct (decide (y ∈ l)) as [Hin | Hin].
      * rewrite decide_True; [done | by right].
      * rewrite decide_False; [done |].
        rewrite not_elem_of_cons. split; [congruence | done].
Qed.

(** X6. [clearAllSelections] empties the selection; the page then shows
    the count 0, hides the summary and disables the export button, an export
    would only show the notice; the layer of every region that was selected
    gets the unselected border and the other layers are left alone. *)
Theorem clearAllSelections_resets (env : Env) (st : State) :
  selectedTownships (clearAllSelections env st) = []
  ∧ stat_count (page (clearAllSelections env st)) = (0%nat, totalTownships env)
  ∧ summary_stats_display (page (clearAllSelections env st)) = false
  ∧ btn_export_disabled (page (clearAllSelections env st)) = true
  ∧ exportData env (clearAllSelections env st) = ToastNotice
  ∧ ∀ x, townshipLayers (clearAllSelections env st) !! x
         = if decide (x ∈ selectedTownships st)
           then setStyle_border BORDER_UNSELECTED <$> townshipLayers st !! x
           else townshipLayers st !! x.
Proof.
  assert (selectedTownships (clearAllSelections env st) = []) as Hsel.
  { unfold clearAllSelections. by rewrite selected_updateUI. }
  split; [done |].
  unfold clearAllSelections at 1 2 3.
  destruct (updateUI_fields env
              (set_selection []
                 (foldl (λ m fullname,
                           alter (setStyle_border BORDER_UNSELECTED) fullname m)
                        (townshipLayers st) (selectedTownships st)) st))
    as (-> & -> & ->).
  cbn [length]. split; [done |]. split; [done |]. split; [done |]. split.
  - unfold exportData. by rewrite Hsel.
  - intros x. unfold clearAllSelections. rewrite layers_updateUI.
    cbn [townshipLayers set_selection]. by apply clear_layers.
Qed.

(** ** Reachable states *)

Lemma set_info_box_page ib' sel l t la c v p a d e bp ib :
  set_info_box ib' (mkState sel l t la (mkPage c v p a d e bp ib))
  = mkState sel l t la (mkPage c v p a d e bp ib').
Proof. reflexivity. Qed.

(** [updateUI] does not touch the info box. *)
Lemma updateUI_info_box env ib' st :
  updateUI env (set_info_box ib' st) = set_info_box ib' (updateUI env st).
Proof.
  destruct st as [sel layers t last [c v p a d e bp ib]].
  rewrite set_info_box_page. unfold updateUI.
  destruct (0 <? length sel)%nat eqn:E.
  - destruct (stats_totals env sel) as [tp ta] eqn:Et.
    rewrite !(updateStats_page_shown _ _ _ _ _ _ _ _ _ _ _ _ _ _ _ E Et).
    by rewrite !updateExportButton_page, !updateBarPlots_page,
         set_info_box_page.
  - rewrite !(updateStats_page_hidden _ _ _ _ _ _ _ _ _ _ _ _ _ E).
    by rewrite !updateExportButton_page, !updateBarPlots_page,
         set_info_box_page.
Qed.

Lemma info_box_in_sync env ib' st :
  updateUI env st = st → updateUI env (set_info_box ib' st) = set_info_box ib' st.
Proof. intros H. by rewrite updateUI_info_box, H. Qed.

Lemma handle_in_sync env ev st :
  updateUI env st = st → updateUI env (handle env ev st) = handle env ev st.
Proof.
  intros Hst.
  assert (∀ l' t' la',
            updateUI env (mkState (selectedTownships st) l' t' la' (page st))
            = mkState (selectedTownships st) l' t' la' (page st)) as Hframe.
  { intros l' t' la'. destruct st as [sel l t la p].
    by apply (in_sync_frame env sel l t la p). }
  destruct ev as [x t | x | x | x | | | c | x]; cbn [handle].
  - unfold handleClick. destruct (bool_decide _ && _); [done |].
    cbn [selectedTownships]. destruct (Set_has _ x); cbn [negb].
    + apply Hframe.
    + unfold selectTownship. apply updateUI_twice.
  - unfold handleDoubleClick. destruct (Set_has _ x); [| done].
    unfold deselectTownship. apply updateUI_twice.
  - unfold handleMouseOver, updateInfoBox.
    destruct (layer_properties env x); [apply info_box_in_sync |];
      (destruct (Set_has _ x); cbn [negb]; [done | apply Hframe]).
  - unfold handleMouseOut, clearInfoBox. apply info_box_in_sync.
    destruct (Set_has _ x); cbn [negb]; [done | apply Hframe].
  - unfold clearAllSelections. apply updateUI_twice.
  - unfold selectAllTownships. apply updateUI_twice.
  - unfold selectCounty. apply updateUI_twice.
  - unfold removeTownshipFromList, deselectTownship. apply updateUI_twice.
Qed.

Lemma run_snoc env evs ev st :
  run env (evs ++ [ev]) st = handle env ev (run env evs st).
Proof. unfold run. by rewrite foldl_app. Qed.

Lemma run_in_sync env p0 evs :
  updateUI env (run env evs (app_init env p0)) = run env evs (app_init env p0).
Proof.
  induction evs as [|ev evs IH] using rev_ind.
  - unfold run. cbn [foldl]. unfold app_init. apply updateUI_twice.
  - rewrite run_snoc. by apply handle_in_sync.
Qed.

Lemma selected_app_init env p0 : selectedTownships (app_init env p0) = [].
Proof. unfold app_init. by rewrite selected_updateUI. Qed.

Lemma run_no_dangling env evs : ∀ st,
  forallb (on_map env) evs = true →
  no_dangling env st → no_dangling env (run env evs st).
Proof.
  unfold run. induction evs as [|ev evs IH]; intros st Hevs Hst; cbn [foldl];
    [done |].
  cbn [forallb] in Hevs. apply andb_true_iff in Hevs as [Hev Hevs].
  apply IH; [done |]. by apply handle_no_dangling.
Qed.

(** X7. The page is always in sync with the selection: in every state
    reached from start-up by any sequence of events, running [updateUI] once
    more changes nothing. *)
Theorem views_in_sync (env : Env) (p0 : Page) (evs : list Event) :
  updateUI env (run env evs (app_init env p0)) = run env evs (app_init env p0).
Proof. apply run_in_sync. Qed.

(** X8. In every state reached from start-up by map events on regions of
    the dataset and by buttons, the statistics on the page agree with the
    selection (also after events that did not change it), and the count
    shown never exceeds the total shown beside it. *)
Theorem stats_in_reachable_states (env : Env) (p0 : Page) (evs : list Event) :
  forallb (on_map env) evs = true →
  stats_consistent env (run env evs (app_init env p0))
  ∧ ((stat_count (page (run env evs (app_init env p0)))).1
     ≤ (stat_count (page (run env evs (app_init env p0)))).2)%nat.
Proof.
  intros Hevs. set (st := run env evs (app_init env p0)).
  assert (stats_consistent env st) as Hc.
  { unfold st. rewrite <- run_in_sync. apply updateUI_stats_consistent. }
  split; [done |]. destruct Hc as [-> _]. cbn [fst snd].
  unfold totalTownships. rewrite <- (length_fmap FULLNAME (features env)).
  apply submseteq_length, NoDup_submseteq.
  - apply NoDup_run. rewrite selected_app_init. apply NoDup_nil_2.
  - intros x Hx.
    assert (no_dangling env st) as Hd.
    { apply run_no_dangling; [done |]. unfold no_dangling, selection.
      rewrite selected_app_init. apply empty_subseteq. }
    apply (elem_of_list_to_set (C := gset string)), Hd.
    by apply elem_of_list_to_set.
Qed.

Lemma stats_in_reachable_states_witness :
  stats_consistent sample_env
    (run sample_env [EvSelectAll; EvMouseOver "C"; EvDblClick "B"]
         (app_init sample_env empty_page)).
Proof.
  apply (stats_in_reachable_states sample_env empty_page
           [EvSelectAll; EvMouseOver "C"; EvDblClick "B"]).
  vm_compute. reflexivity.
Defined.

(** X9. In every state reached from start-up the export button is
    disabled exactly when nothing is selected, that is exactly when
    [exportData] would only show the notice. *)
Theorem export_button_in_reachable_states
    (env : Env) (p0 : Page) (evs : list Event) :
  (btn_export_disabled (page (run env evs (app_init env p0))) = true
   ↔ selectedTownships (run env evs (app_init env p0)) = [])
  ∧ (btn_export_disabled (page (run env evs (app_init env p0))) = true
     ↔ exportData env (run env evs (app_init env p0)) = ToastNotice).
Proof.
  set (st := run env evs (app_init env p0)).
  assert (btn_export_disabled (page st)
          = bool_decide (length (selectedTownships st) = 0%nat)) as ->.
  { unfold st. rewrite <- run_in_sync at 1. fold st.
    by destruct (updateUI_fields env st) as (_ & _ & ->). }
  rewrite bool_decide_eq_true. unfold exportData.
  destruct (selectedTownships st) as [|x sel] eqn:E; cbn [length].
  - split; [done |]. by rewrite bool_decide_eq_true_2.
  - split; [split; [lia | done] |].
    rewrite bool_decide_eq_false_2 by lia.
    split; [lia |]. by destruct (export_rows env (x :: sel)).
Qed.

Lemma export_button_in_reachable_states_witness :
  exportData sample_env
    (run sample_env [EvClick "A" 1000; EvClear] (app_init sample_env empty_page))
  = ToastNotice.
Proof.
  apply (proj2 (export_button_in_reachable_states sample_env empty_page
                  [EvClick "A" 1000; EvClear])).
  vm_compute. reflexivity.
Defined.

(** ** Layer styles in reachable states *)

Lemma Set_has_add_eq sel x : Set_has (Set_add x sel) x = true.
Proof. apply Set_has_true, elem_of_Set_add. by left. Qed.

Lemma Set_has_add_ne sel x y : x ≠ y → Set_has (Set_add x sel) y = Set_has sel y.
Proof.
  intros Hne. unfold Set_has. apply bool_decide_ext.
  rewrite elem_of_Set_add. split; [intros [-> | ?]; done | auto].
Qed.

Lemma Set_has_delete_eq sel x : Set_has (Set_delete x sel) x = false.
Proof. apply Set_has_false. rewrite elem_of_Set_delete. tauto. Qed.

Lemma Set_has_delete_ne sel x y :
  x ≠ y → Set_has (Set_delete x sel) y = Set_has sel y.
Proof.
  intros Hne. unfold Set_has. apply bool_decide_ext.
  rewrite elem_of_Set_delete. split; [tauto | intros ?; split; congruence].
Qed.

Lemma borders_ok_select sel layers x :
  borders_ok sel layers →
  borders_ok (Set_add x sel) (alter (setStyle_border BORDER_SELECTED) x layers).
Proof.
  intros H y s. destruct (decide (x = y)) as [<- | Hne].
  - rewrite lookup_alter_eq, Set_has_add_eq.
    destruct (layers !! x) as [s0|]; [| done]. by intros [= <-].
  - rewrite lookup_alter_ne, Set_has_add_ne by done. apply H.
Qed.

Lemma borders_ok_deselect sel layers x :
  borders_ok sel layers →
  borders_ok (Set_delete x sel)
             (alter (setStyle_border BORDER_UNSELECTED) x layers).
Proof.
  intros H y s. destruct (decide (x = y)) as [<- | Hne].
  - rewrite lookup_alter_eq, Set_has_delete_eq.
    destruct (layers !! x) as [s0|]; [| done]. intros [= <-]. by left.
  - rewrite lookup_alter_ne, Set_has_delete_ne by done. apply H.
Qed.

Lemma borders_ok_mouseover sel layers x :
  Set_has sel x = false →
  borders_ok sel layers → borders_ok sel (alter setStyle_hover x layers).
Proof.
  intros Hx H y s. destruct (decide (x = y)) as [<- | Hne].
  - rewrite lookup_alter_eq, Hx.
    destruct (layers !! x) as [s0|] eqn:E; [| done]. intros [= <-].
    right. specialize (H x s0 E). rewrite Hx in H.
    unfold border_of, setStyle_hover, hover_border. cbn.
    destruct H as [H | H]; unfold border_of in H; by injection H as _ _ ->.
  - rewrite lookup_alter_ne by done. apply H.
Qed.

Lemma borders_ok_mouseout sel layers x :
  Set_has sel x = false →
  borders_ok sel layers →
  borders_ok sel (alter (setStyle_border BORDER_UNSELECTED) x layers).
Proof.
  intros Hx H y s. destruct (decide (x = y)) as [<- | Hne].
  - rewrite lookup_alter_eq, Hx.
    destruct (layers !! x) as [s0|]; [| done]. intros [= <-]. by left.
  - rewrite lookup_alter_ne by done. apply H.
Qed.

Lemma borders_ok_clear sel layers :
  borders_ok sel layers →
  borders_ok []
    (foldl (λ m x, alter (setStyle_border BORDER_UNSELECTED) x m) layers sel).
Proof.
  intros H y s. rewrite clear_layers by done.
  change (Set_has [] y) with false.
  destruct (decide (y ∈ sel)) as [Hin | Hin].
  - destruct (layers !! y); [| done]. intros [= <-]. by left.
  - intros Hy. specialize (H y s Hy).
    by rewrite (proj2 (Set_has_false sel y) Hin) in H.
Qed.

Lemma borders_ok_handle env ev st :
  borders_ok (selectedTownships st) (townshipLayers st) →
  borders_ok (selectedTownships (handle env ev st))
             (townshipLayers (handle env ev st)).
Proof.
  intros H. destruct ev as [x t | x | x | x | | | c | x]; cbn [handle].
  - unfold handleClick. destruct (bool_decide _ && _); [done |].
    cbn [selectedTownships]. destruct (Set_has _ x); cbn [negb]; [done |].
    rewrite selected_selectTownship, layers_selectTownship.
    by apply borders_ok_select.
  - unfold handleDoubleClick. destruct (Set_has _ x); [| done].
    rewrite selected_deselectTownship, layers_deselectTownship.
    by apply borders_ok_deselect.
  - rewrite (proj1 (hover_selection env x st)), (proj1 (hover_layers env x st)).
    destruct (Set_has _ x) eqn:E; [done |]. by apply borders_ok_mouseover.
  - rewrite (proj2 (hover_selection env x st)), (proj2 (hover_layers env x st)).
    destruct (Set_has _ x) eqn:E; [done |]. by apply borders_ok_mouseout.
  - unfold clearAllSelections. rewrite selected_updateUI, layers_updateUI.
    by apply borders_ok_clear.
  - unfold selectAllTownships. rewrite selected_updateUI, layers_updateUI.
    apply (foldl_invariant
             (λ s, borders_ok (selectedTownships s) (townshipLayers s)));
      [| done].
    intros s f Hs. rewrite selected_selectTownship, layers_selectTownship.
    by apply borders_ok_select.
  - unfold selectCounty. rewrite selected_updateUI, layers_updateUI.
    destruct (allSelected env c st).
    + apply (foldl_invariant
               (λ s, borders_ok (selectedTownships s) (townshipLayers s)));
        [| done].
      intros s n Hs. rewrite selected_deselectTownship, layers_deselectTownship.
      by apply borders_ok_deselect.
    + apply (foldl_invariant
               (λ s, borders_ok (selectedTownships s) (townshipLayers s)));
        [| done].
      intros s n Hs. destruct (Set_has _ n); [done |].
      rewrite selected_selectTownship, layers_selectTownship.
      by apply borders_ok_select.
  - unfold removeTownshipFromList.
    rewrite selected_deselectTownship, layers_deselectTownship.
    by apply borders_ok_deselect.
Qed.

(** The layers [createGeoJSONLayer] registers. *)
Lemma created_layers (st : State) (fs : list Feature) :
  ∀ (m : gmap string PathStyle) x,
    foldl (λ m f, <[FULLNAME f := styleFeature st f]> m) m fs !! x
    = match List.find (λ f, bool_decide (FULLNAME f = x)) (rev fs) with
      | Some f => Some (styleFeature st f)
      | None => m !! x
      end.
Proof.
  induction fs as [|f fs IH] using rev_ind; intros m x; [done |].
  rewrite foldl_app, rev_unit. cbn [foldl List.find].
  destruct (decide (FULLNAME f = x)) as [<- | Hne].
  - by rewrite lookup_insert_eq, bool_decide_eq_true_2.
  - rewrite lookup_insert_ne, bool_decide_eq_false_2 by done. apply IH.
Qed.

Lemma layers_app_init env p0 x :
  townshipLayers (app_init env p0) !! x
  = styleFeature (mkState [] ∅ 0 None p0)
    <$> List.find (λ f, bool_decide (FULLNAME f = x)) (rev (features env)).
Proof.
  unfold app_init. rewrite layers_updateUI. unfold createGeoJSONLayer.
  cbn [townshipLayers]. rewrite created_layers.
  assert (selectedTownships (updateStats env (mkState [] ∅ 0 None p0)) = []
          ∧ townshipLayers (updateStats env (mkState [] ∅ 0 None p0)) = ∅)
    as [Hs Hl] by done.
  rewrite Hl, lookup_empty.
  destruct (find _ _) as [f|]; [| done].
  unfold styleFeature. by rewrite Hs.
Qed.

Lemma run_borders_ok env p0 evs :
  borders_ok (selectedTownships (run env evs (app_init env p0)))
             (townshipLayers (run env evs (app_init env p0))).
Proof.
  induction evs as [|ev evs IH] using rev_ind.
  - unfold run. cbn [foldl]. rewrite selected_app_init. intros x s.
    rewrite layers_app_init. destruct (find _ _) as [f|]; [| done].
    intros [= <-]. by left.
  - rewrite run_snoc. by apply borders_ok_handle.
Qed.

(** X10. In every state reached from start-up, whatever the events, the
    layer of each selected region has the selected border (weight 3, black,
    opaque) and the layer of each other region has the unselected border or,
    under the pointer, the hover border. *)
Theorem borders_follow_selection
    (env : Env) (p0 : Page) (evs : list Event) (x : string) (s : PathStyle) :
  townshipLayers (run env evs (app_init env p0)) !! x = Some s →
  (x ∈ selectedTownships (run env evs (app_init env p0)) →
   border_of s = BORDER_SELECTED)
  ∧ (x ∉ selectedTownships (run env evs (app_init env p0)) →
     border_of s = BORDER_UNSELECTED ∨ border_of s = hover_border).
Proof.
  intros Hs. pose proof (run_borders_ok env p0 evs x s Hs) as H.
  split; intros Hx.
  - by rewrite (proj2 (Set_has_true _ x) Hx) in H.
  - by rewrite (proj2 (Set_has_false _ x) Hx) in H.
Qed.

Lemma borders_follow_selection_witness :
  ∃ s, townshipLayers
         (run sample_env [EvClick "A" 1000; EvMouseOver "C"]
              (app_init sample_env empty_page)) !! "A" = Some s
       ∧ border_of s = BORDER_SELECTED.
Proof.
  eexists. split; [vm_compute; reflexivity |].
  eapply (proj1 (borders_follow_selection sample_env empty_page
                   [EvClick "A" 1000; EvMouseOver "C"] "A" _ _)).
  vm_compute. apply list_elem_of_here.
  Unshelve. vm_compute. reflexivity.
Defined.

(** No handler touches the fill of a layer, nor adds or removes a layer. *)
Lemma fill_alter (g : PathStyle → PathStyle) (m : gmap string PathStyle) x y :
  (∀ s, fill_of (g s) = fill_of s) →
  fill_of <$> alter g x m !! y = fill_of <$> m !! y.
Proof.
  intros Hg. destruct (decide (x = y)) as [<- | Hne].
  - rewrite lookup_alter_eq. destruct (m !! x); cbn; [by rewrite Hg | done].
  - by rewrite lookup_alter_ne.
Qed.

Lemma fill_select env x flag st y :
  fill_of <$> townshipLayers (selectTownship env x flag st) !! y
  = fill_of <$> townshipLayers st !! y.
Proof. rewrite layers_selectTownship. by apply fill_alter. Qed.

Lemma fill_deselect env x flag st y :
  fill_of <$> townshipLayers (deselectTownship env x flag st) !! y
  = fill_of <$> townshipLayers st !! y.
Proof. rewrite layers_deselectTownship. by apply fill_alter. Qed.

Lemma fill_handle env ev st y :
  fill_of <$> townshipLayers (handle env ev st) !! y
  = fill_of <$> townshipLayers st !! y.
Proof.
  destruct ev as [x t | x | x | x | | | c | x]; cbn [handle].
  - unfold handleClick. destruct (bool_decide _ && _); [done |].
    cbn [selectedTownships]. destruct (Set_has _ x); cbn [negb]; [done |].
    by rewrite fill_select.
  - unfold handleDoubleClick. destruct (Set_has _ x); [| done].
    apply fill_deselect.
  - rewrite (proj1 (hover_layers env x st)).
    destruct (Set_has _ x); [done | by apply fill_alter].
  - rewrite (proj2 (hover_layers env x st)).
    destruct (Set_has _ x); [done | by apply fill_alter].
  - unfold clearAllSelections. rewrite layers_updateUI.
    cbn [townshipLayers set_selection].
    generalize (townshipLayers st).
    induction (selectedTownships st) as [|n l IH]; intros m; cbn [foldl];
      [done |].
    rewrite IH. by apply fill_alter.
  - unfold selectAllTownships. rewrite layers_updateUI.
    apply (foldl_invariant
             (λ s, fill_of <$> townshipLayers s !! y
                   = fill_of <$> townshipLayers st !! y)); [| done].
    intros s f Hs. by rewrite fill_select.
  - unfold selectCounty. rewrite layers_updateUI.
    destruct (allSelected env c st).
    + apply (foldl_invariant
               (λ s, fill_of <$> townshipLayers s !! y
                     = fill_of <$> townshipLayers st !! y)); [| done].
      intros s n Hs. by rewrite fill_deselect.
    + apply (foldl_invariant
               (λ s, fill_of <$> townshipLayers s !! y
                     = fill_of <$> townshipLayers st !! y)); [| done].
      intros s n Hs. destruct (Set_has _ n); [done |]. by rewrite fill_select.
  - unfold removeTownshipFromList. apply fill_deselect.
Qed.

Lemma fill_run env evs st y :
  fill_of <$> townshipLayers (run env evs st) !! y
  = fill_of <$> townshipLayers st !! y.
Proof.
  induction evs as [|ev evs IH] using rev_ind; [done |].
  by rewrite run_snoc, fill_handle.
Qed.

Lemma elem_of_rev {A} (x : A) (l : list A) : x ∈ rev l ↔ x ∈ l.
Proof. rewrite !list_elem_of_In. symmetry. apply in_rev. Qed.

Lemma find_last_NoDup (fs : list Feature) f :
  NoDup (FULLNAME <$> fs) → f ∈ fs →
  List.find (λ g, bool_decide (FULLNAME g = FULLNAME f)) (rev fs) = Some f.
Proof.
  intros Hnd Hf.
  destruct (find _ (rev fs)) as [g|] eqn:E.
  - apply find_some in E as [Hg E]. apply bool_decide_eq_true in E.
    apply list_elem_of_In in Hg. apply (proj1 (elem_of_rev _ _)) in Hg. f_equal.
    apply list_elem_of_lookup in Hg as [i Hi].
    apply list_elem_of_lookup in Hf as [j Hj].
    assert (i = j) as Hij.
    { apply (NoDup_lookup _ i j (FULLNAME f) Hnd);
        rewrite list_lookup_fmap; [by rewrite Hi; cbn; f_equal | by rewrite Hj]. }
    rewrite Hij, Hj in Hi. by injection Hi.
  - exfalso. apply (proj2 (elem_of_rev _ _)), list_elem_of_In in Hf.
    pose proof (find_none _ _ E f Hf) as H. cbv beta in H.
    by rewrite bool_decide_eq_true_2 in H.
Qed.

(** X11. In every state reached from start-up the map has exactly one
    layer per region name, and when the names are pairwise distinct the
    layer of every region is filled with the colour of the region's density
    (of 0 when it has none) at opacity 0.8, whatever was clicked or hovered
    since. *)
Theorem layers_keep_fill (env : Env) (p0 : Page) (evs : list Event) :
  dom (townshipLayers (run env evs (app_init env p0))) = region_set env
  ∧ (NoDup (region_names env) →
     ∀ f, f ∈ features env →
       ∃ s, townshipLayers (run env evs (app_init env p0)) !! FULLNAME f = Some s
            ∧ fillColor s = getColor (or_zero (f_density f))
            ∧ fillOpacity s = (8 # 10)%Q).
Proof.
  split.
  - apply set_eq. intros x. rewrite elem_of_dom.
    rewrite <- (fmap_is_Some fill_of), fill_run, fmap_is_Some.
    rewrite layers_app_init, fmap_is_Some.
    unfold region_set, region_names.
    rewrite elem_of_list_to_set, list_elem_of_fmap. split.
    + intros [f Hf]. apply find_some in Hf as [Hf E].
      apply bool_decide_eq_true in E.
      apply list_elem_of_In in Hf. apply (proj1 (elem_of_rev _ _)) in Hf. eauto.
    + intros (f & -> & Hf).
      apply (proj2 (elem_of_rev _ _)), list_elem_of_In in Hf.
      destruct (find _ (rev (features env))) as [g|] eqn:E; [eauto |].
      pose proof (find_none _ _ E f Hf) as H. cbv beta in H.
      by rewrite bool_decide_eq_true_2 in H.
  - intros Hnd f Hf.
    pose proof (fill_run env evs (app_init env p0) (FULLNAME f)) as H.
    rewrite layers_app_init, (find_last_NoDup _ _ Hnd Hf) in H.
    destruct (townshipLayers (run env evs (app_init env p0)) !! FULLNAME f)
      as [s|]; [| done].
    exists s. split; [done |]. cbn in H. injection H as H1 H2. done.
Qed.

Lemma layers_keep_fill_witness :
  ∃ s, townshipLayers
         (run sample_env [EvSelectAll; EvMouseOver "B"; EvCounty "X"]
              (app_init sample_env empty_page)) !! "B" = Some s
       ∧ fillColor s = getColor 20
       ∧ fillOpacity s = (8 # 10)%Q.
Proof.
  destruct (layers_keep_fill sample_env empty_page
              [EvSelectAll; EvMouseOver "B"; EvCounty "X"]) as [_ H].
  apply (H ltac:(apply (bool_decide_unpack _); vm_compute; exact I)
           (mkFeature "B" "X" "b" (Some 400) (Some 20%Q) (Some 20%Q))).
  vm_compute. apply list_elem_of_further, list_elem_of_here.
Defined.

(** ** Hovering *)

Lemma border_of_unselected_eta s :
  border_of s = BORDER_UNSELECTED →
  setStyle_border BORDER_UNSELECTED (setStyle_hover s) = s.
Proof.
  destruct s as [fc w o c fo]. unfold border_of, BORDER_UNSELECTED.
  cbn. by intros [= -> -> ->].
Qed.

Lemma set_info_box_restore ib st :
  set_info_box (map_info_box (page st)) (set_info_box ib st) = st.
Proof. by destruct st as [sel layers t la [c v p a d e bp ib0]]. Qed.

(** X12. Hovering never changes the selection, the statistics, the export
    button or the charts: of the page it writes the info box only.  The
    pointer entering a region of the map fills the info box with the
    properties of that region and shows it; the pointer leaving hides the
    box and keeps its content.  Apart from the info box, on a selected
    region entering and leaving change nothing; on an unselected region,
    entering and leaving puts the unselected border on its layer, keeps
    its fill and leaves every other layer alone, and when the layer had
    the unselected border before, the state is as before. *)
Theorem hover_then_leave (env : Env) (fullname : string) (props : Feature)
    (st : State) :
  layer_properties env fullname = Some props →
  let over := handleMouseOver env fullname st in
  let out := handleMouseOut fullname over in
  let restore := set_info_box (map_info_box (page st)) in
  map_info_box (page over) = mkInfoBox (Some props) true
  ∧ map_info_box (page out) = mkInfoBox (Some props) false
  ∧ selectedTownships over = selectedTownships st
  ∧ selectedTownships out = selectedTownships st
  ∧ page (restore over) = page st
  ∧ page (restore out) = page st
  ∧ (fullname ∈ selectedTownships st → restore over = st ∧ restore out = st)
  ∧ (fullname ∉ selectedTownships st →
     (∀ y, y ≠ fullname →
        townshipLayers out !! y = townshipLayers st !! y)
     ∧ (∀ s, townshipLayers st !! fullname = Some s →
          ∃ s',
            townshipLayers out !! fullname = Some s'
            ∧ border_of s' = BORDER_UNSELECTED ∧ fill_of s' = fill_of s
            ∧ (border_of s = BORDER_UNSELECTED → restore out = st))).
Proof.
  intros Hp. cbv zeta.
  destruct (Set_has (selectedTownships st) fullname) eqn:E.
  - assert (handleMouseOver env fullname st
            = set_info_box (mkInfoBox (Some props) true) st) as ->.
    { unfold handleMouseOver, updateInfoBox. by rewrite Hp, E. }
    assert (handleMouseOut fullname
              (set_info_box (mkInfoBox (Some props) true) st)
            = set_info_box (mkInfoBox (Some props) false) st) as ->.
    { unfold handleMouseOut, clearInfoBox.
      cbn [selectedTownships set_info_box set_page]. rewrite E. cbn [negb].
      by destruct st as [sel layers t la [c v p a d e bp ib]]. }
    rewrite !set_info_box_restore.
    split; [done |]. split; [done |]. split; [done |]. split; [done |].
    split; [done |]. split; [done |]. split; [done |].
    intros H%Set_has_false. congruence.
  - assert (handleMouseOver env fullname st
            = set_info_box (mkInfoBox (Some props) true)
                (set_selection (selectedTownships st)
                   (alter setStyle_hover fullname (townshipLayers st)) st))
      as ->.
    { unfold handleMouseOver, updateInfoBox. by rewrite Hp, E. }
    assert (handleMouseOut fullname
              (set_info_box (mkInfoBox (Some props) true)
                 (set_selection (selectedTownships st)
                    (alter setStyle_hover fullname (townshipLayers st)) st))
            = set_info_box (mkInfoBox (Some props) false)
                (set_selection (selectedTownships st)
                   (alter (setStyle_border BORDER_UNSELECTED) fullname
                      (alter setStyle_hover fullname (townshipLayers st))) st))
      as ->.
    { unfold handleMouseOut, clearInfoBox.
      cbn [negb selectedTownships set_info_box set_page set_selection].
      rewrite E. cbn [negb].
      by destruct st as [sel layers t la [c v p a d e bp ib]]. }
    split; [done |]. split; [done |]. split; [done |]. split; [done |].
    split; [by destruct st as [sel layers t la [c v p a d e bp ib]] |].
    split; [by destruct st as [sel layers t la [c v p a d e bp ib]] |].
    split.
    { intros H%Set_has_true. congruence. }
    intros _. cbn [townshipLayers set_info_box set_page set_selection].
    split.
    + intros y Hy. by rewrite !lookup_alter_ne.
    + intros s Hs. rewrite !lookup_alter_eq, Hs. cbn [fmap option_fmap option_map].
      eexists. split; [done |]. split; [done |]. split; [done |].
      intros Hb. destruct st as [sel layers t la [c v p a d e bp ib]].
      unfold set_info_box, set_page, set_selection.
      cbn [selectedTownships townshipLayers lastClickTime
           lastClickedTownship page map_info_box stat_count
           summary_stats_display stat_population stat_area stat_density
           btn_export_disabled charts] in *.
      f_equal. apply map_eq. intros y.
      destruct (decide (fullname = y)) as [<- | Hne].
      * rewrite !lookup_alter_eq, Hs. cbn.
        by rewrite border_of_unselected_eta.
      * by rewrite !lookup_alter_ne.
Qed.

Lemma hover_then_leave_witness :
  map_info_box (page (handleMouseOver sample_env "C" sample_A))
  = mkInfoBox (Some (mkFeature "C" "Y" "c" None None None)) true
  ∧ selectedTownships (handleMouseOut "C" (handleMouseOver sample_env "C" sample_A))
    = selectedTownships sample_A.
Proof.
  pose proof (hover_then_leave sample_env "C"
                (mkFeature "C" "Y" "c" None None None) sample_A
                ltac:(vm_compute; reflexivity)) as H.
  cbv zeta in H. exact (conj (proj1 H) (proj1 (proj2 (proj2 (proj2 H))))).
Defined.

(** ** The click window *)

(** X13. The 300 ms window is measured from the last click that was
    handled: a repeat that was ignored does not restart it, so a click on
    the same region 300 ms or more after the handled one is handled again,
    however close it is to the ignored repeat.  A click on a region other
    than the last one clicked is handled whatever the time. *)
Theorem click_window (env : Env) (fullname other : string) (t1 t2 t3 t : Z)
    (st : State) :
  single_click fullname t1 st →
  t2 - t1 < DOUBLE_CLICK_THRESHOLD →
  DOUBLE_CLICK_THRESHOLD ≤ t3 - t1 →
  other ≠ fullname →
  let clicked := handleClick env fullname t1 st in
  let repeated := handleClick env fullname t2 clicked in
  lastClickTime repeated = t1
  ∧ lastClickTime (handleClick env fullname t3 repeated) = t3
  ∧ selection (handleClick env other t clicked)
    = selection clicked ∪ {[other]}
  ∧ lastClickedTownship (handleClick env other t clicked) = Some other.
Proof.
  intros Hs H2 H3 Hne clicked repeated.
  destruct (handleClick_single env fullname t1 st Hs) as (Hsel & Hl & Hti).
  fold clicked in Hsel, Hl, Hti.
  assert (repeated = clicked) as ->.
  { apply handleClick_repeat; [done | by rewrite Hti]. }
  split; [done |].
  assert (single_click fullname t3 clicked) as Hs3.
  { unfold single_click. rewrite Hti. lia. }
  assert (single_click other t clicked) as Hso.
  { unfold single_click. rewrite Hl. intros [[= ->] _]. done. }
  destruct (handleClick_single env fullname t3 clicked Hs3) as (_ & _ & ->).
  destruct (handleClick_single env other t clicked Hso) as (-> & -> & _).
  done.
Qed.

Lemma click_window_witness :
  lastClickTime
    (handleClick sample_env "A" 1350
       (handleClick sample_env "A" 1200
          (handleClick sample_env "A" 1000 sample_start))) = 1350
  ∧ lastClickedTownship
      (handleClick sample_env "B" 1001
         (handleClick sample_env "A" 1000 sample_start)) = Some "B".
Proof.
  assert (single_click "A" 1000 sample_start) as Hs.
  { unfold single_click. vm_compute. intros [H _]. discriminate H. }
  pose proof (click_window sample_env "A" "B" 1000 1200 1350 1001 sample_start
                Hs ltac:(unfold DOUBLE_CLICK_THRESHOLD; lia)
                ltac:(unfold DOUBLE_CLICK_THRESHOLD; lia)
                ltac:(discriminate)) as H.
  cbv zeta in H. tauto.
Defined.

(** ** Loading and colouring *)

Lemma grade_reached_comp d1 d2 i :
  (d1 == d2)%Q → grade_reached d1 i = grade_reached d2 i.
Proof.
  intros H. apply eq_true_iff_eq.
  rewrite !grade_reached_spec. by setoid_rewrite H.
Qed.

Lemma getColor_loop_comp d1 d2 n :
  (d1 == d2)%Q → getColor_loop d1 n = getColor_loop d2 n.
Proof.
  intros H. induction n as [|n IH]; [done |]. cbn [getColor_loop].
  by rewrite (grade_reached_comp d1 d2 n H), IH.
Qed.

Lemma getColor_comp d1 d2 : (d1 == d2)%Q → getColor d1 = getColor d2.
Proof. intros H. unfold getColor. by rewrite (getColor_loop_comp d1 d2 _ H). Qed.

Lemma getColor_or_zero q : getColor (or_zero (Some q)) = getColor q.
Proof.
  unfold or_zero. destruct (Qeq_bool q 0) eqn:E; [| done].
  apply Qeq_bool_eq in E. apply getColor_comp. by symmetry.
Qed.

(** X14. The merge of [loadData] keeps the features in number, order and
    names; a feature whose full name has a population record gets the three
    values of that record and is filled on the map with the colour of the
    record's density; a feature without a record is left as it is. *)
Theorem loadData_merge_records
    (pd : gmap string PopData) (geo : list Feature) (st : State) :
  length (loadData_merge pd geo) = length geo
  ∧ FULLNAME <$> loadData_merge pd geo = FULLNAME <$> geo
  ∧ COUNTYNAME <$> loadData_merge pd geo = COUNTYNAME <$> geo
  ∧ TOWNNAME <$> loadData_merge pd geo = TOWNNAME <$> geo
  ∧ ∀ i f, geo !! i = Some f →
      match pd !! FULLNAME f with
      | Some d =>
          ∃ g, loadData_merge pd geo !! i = Some g
               ∧ f_population g = Some (population d)
               ∧ f_area g = Some (area d)
               ∧ f_density g = Some (density d)
               ∧ fillColor (styleFeature st g) = getColor (density d)
      | None => loadData_merge pd geo !! i = Some f
      end.
Proof.
  unfold loadData_merge.
  assert (∀ f, FULLNAME (mergeFeature pd f) = FULLNAME f
               ∧ COUNTYNAME (mergeFeature pd f) = COUNTYNAME f
               ∧ TOWNNAME (mergeFeature pd f) = TOWNNAME f) as Hn.
  { intros f. unfold mergeFeature. by destruct (pd !! FULLNAME f). }
  split; [apply length_fmap |].
  split; [rewrite <- list_fmap_compose; apply list_fmap_ext; intros; apply Hn |].
  split; [rewrite <- list_fmap_compose; apply list_fmap_ext; intros; apply Hn |].
  split; [rewrite <- list_fmap_compose; apply list_fmap_ext; intros; apply Hn |].
  intros i f Hf. rewrite list_lookup_fmap, Hf. cbn.
  unfold mergeFeature. destruct (pd !! FULLNAME f) as [d|]; [| done].
  eexists. split; [done |]. cbn [f_population f_area f_density].
  repeat split. unfold styleFeature. cbn [fillColor f_density].
  apply getColor_or_zero.
Qed.

(** X15. [getColor] always returns one of the nine palette colours, for
    negative densities too; and since the last two palette entries are the
    same colour, every density from 20000 up is filled alike. *)
Theorem getColor_in_palette (d : Q) :
  (getColor_index d < length COLOR_PALETTE)%nat
  ∧ COLOR_PALETTE !! getColor_index d = Some (getColor d)
  ∧ ((20000 <= d)%Q → getColor d = "#aa4c2c").
Proof.
  assert (getColor_index d < 9)%nat as Hi.
  { unfold getColor_index.
    destruct (getColor_loop d (length COLOR_GRADES)) as [i|] eqn:E; cbn.
    - by apply getColor_loop_Some in E as [E _].
    - lia. }
  split; [done |]. split.
  - rewrite getColor_palette. unfold palette.
    destruct (COLOR_PALETTE !! getColor_index d) eqn:E; [done |].
    apply lookup_ge_None in E.
    change (length COLOR_PALETTE) with 9%nat in E. lia.
  - intros Hd. rewrite getColor_palette.
    assert (0 <= d)%Q as H0 by (apply Qle_trans with 20000%Q; [done | exact Hd]).
    pose proof (getColor_index_nonneg d H0) as H.
    apply getColor_loop_Some in H as (_ & _ & Hj).
    assert (grade_reached d 7 = true) as H7.
    { apply grade_reached_spec. exists 20000. split; [done | exact Hd]. }
    assert (7 ≤ getColor_index d)%nat as Hge.
    { apply Nat.nlt_ge. intros Hlt. rewrite Hj in H7; [done |].
      change (length COLOR_GRADES) with 9%nat. lia. }
    assert (getColor_index d = 7%nat ∨ getColor_index d = 8%nat) as [-> | ->]
      by lia; reflexivity.
Qed.

Lemma getColor_in_palette_witness : getColor 25000 = "#aa4c2c".
Proof.
  apply (proj2 (proj2 (getColor_in_palette 25000))). vm_compute. discriminate.
Defined.

Lemma loadData_merge_records_witness :
  ∃ g, loadData_merge sample_population sample_geo !! 1%nat = Some g
       ∧ f_density g = Some 20%Q
       ∧ fillColor (styleFeature sample_start g) = getColor 20.
Proof.
  destruct (loadData_merge_records sample_population sample_geo sample_start)
    as (_ & _ & _ & _ & H).
  specialize (H 1%nat (mkFeature "B" "X" "b" None None None) eq_refl).
  destruct H as (g & H1 & _ & _ & H2 & H3).
  exists g. exact (conj H1 (conj H2 H3)).
Defined.

(** ** Rendering a chart *)

Lemma Qle_bool_true (a b : Q) : (a <= b)%Q → Qle_bool a b = true.
Proof. apply Qle_bool_iff. Qed.

(** X16. The four outcomes of [renderChart].  A missing container is left
    alone.  A container without width or height gets the loading text, even
    when there is nothing to plot.  Otherwise no data gives the placeholder
    prompt; and data gives a chart when the height exceeds 90 px (104 px
    when more than 15 bars make the chart scroll) and an emptied container
    when it does not. *)
Theorem renderChart_outcomes (w h : Q) (data : list BarDatum) (old : ChartView) :
  renderChart None data old = old
  ∧ ((w <= 0)%Q ∨ (h <= 0)%Q →
     renderChart (Some (w, h)) data old = LoadingText)
  ∧ ((0 < w)%Q → (0 < h)%Q →
     (data = [] → renderChart (Some (w, h)) data old = PlaceholderText)
     ∧ (data ≠ [] → (length data ≤ 15)%nat →
        ((h <= 90)%Q → renderChart (Some (w, h)) data old = EmptyContainer)
        ∧ ((90 < h)%Q →
           renderChart (Some (w, h)) data old = fitted_chart w h data))
     ∧ ((15 < length data)%nat →
        ((h <= 104)%Q → renderChart (Some (w, h)) data old = EmptyContainer)
        ∧ ((104 < h)%Q →
           renderChart (Some (w, h)) data old = scrolling_chart w h data))).
Proof.
  split; [done |]. split.
  - intros [H | H]; unfold renderChart.
    + by rewrite (Qle_bool_true _ _ H).
    + rewrite (Qle_bool_true _ _ H). by rewrite orb_true_r.
  - intros Hw Hh. unfold renderChart.
    rewrite (Qle_bool_false w 0 Hw), (Qle_bool_false h 0 Hh). cbn [orb].
    split; [by intros -> |]. split.
    + intros Hne Hlen. rewrite bool_decide_eq_false_2
        by (by destruct data).
      apply Nat.ltb_ge in Hlen. unfold maxVisibleBars. rewrite Hlen.
      split; intros H.
      * rewrite Qle_bool_true; [done |]. unfold margin_top, bottomMargin. lra.
      * rewrite Qle_bool_false; [done |]. unfold margin_top, bottomMargin. lra.
    + intros Hlen. rewrite bool_decide_eq_false_2
        by (destruct data; cbn in *; [lia | done]).
      apply Nat.ltb_lt in Hlen. unfold maxVisibleBars. rewrite Hlen.
      split; intros H.
      * rewrite Qle_bool_true; [done |].
        unfold scrollbarHeight, margin_top, bottomMargin. lra.
      * rewrite Qle_bool_false; [done |].
        unfold scrollbarHeight, margin_top, bottomMargin. lra.
Qed.

Lemma renderChart_outcomes_witness :
  renderChart (Some (0, 300)%Q) [] EmptyContainer = LoadingText
  ∧ renderChart (Some (800, 90)%Q) [mkBarDatum "A" 100 10 10] LoadingText
    = EmptyContainer.
Proof.
  destruct (renderChart_outcomes 0 300 [] EmptyContainer) as (_ & H1 & _).
  destruct (renderChart_outcomes 800 90 [mkBarDatum "A" 100 10 10] LoadingText)
    as (_ & _ & H2).
  split.
  - apply H1. left. vm_compute. discriminate.
  - destruct H2 as (_ & H2 & _); [reflexivity | reflexivity |].
    apply H2; [discriminate | vm_compute; lia | vm_compute; discriminate].
Defined.

(** Sixteen bars in a container of 800 by 300 px: the scroll container
    scrolls, the band scale ranges over 768 px (48 px per bar), and the
    chart SVG is 788 px wide and 286 px high. *)
Example sixteen_bars_chart :
  ∃ inner svg height,
    renderChart (Some (800, 300)%Q) (selectedData sixteen_env sixteen_names)
                EmptyContainer
    = BarChart OverflowAuto inner svg height
               (selectedData sixteen_env sixteen_names)
    ∧ (inner == 768)%Q ∧ (svg == 788)%Q ∧ (height == 286)%Q.
Proof.
  do 3 eexists. split; [by vm_compute |]. split; [| split]; by vm_compute.
Qed.

(** ** The [BarPlots] module *)

Lemma BarPlots_update_initialized env data bp :
  initialized bp = true →
  BarPlots_update env data bp
  = mkBarPlots true data
      (renderChart (density_container env) (Array_sort by_density data)
                   (density_bar_plot bp))
      (renderChart (population_container env) (Array_sort by_population data)
                   (population_bar_plot bp)).
Proof.
  intros H. destruct bp as [ini ld dv pv]. cbn [initialized] in H.
  by subst ini.
Qed.

Lemma BarPlots_update_lastData env data bp :
  initialized (BarPlots_update env data bp) = true →
  lastData (BarPlots_update env data bp) = data.
Proof.
  destruct bp as [ini ld dv pv]. unfold BarPlots_update, BarPlots_init.
  cbn [initialized].
  destruct ini; [done |].
  destruct (d3_defined env); [| done].
  destruct (density_container env); [| done].
  by destruct (population_container env).
Qed.

(** X18. [update] on a module that is not initialised and cannot be (D3 is
    not loaded, or one of the two containers is missing) changes nothing: no
    chart is drawn and the data is not even remembered.  In every other case
    the module is initialised afterwards and remembers exactly the data it
    was given. *)
Theorem BarPlots_update_remembers (env : Env) (data : list BarDatum) (bp : BarPlots) :
  (initialized bp = false →
   d3_defined env = false ∨ density_container env = None
   ∨ population_container env = None →
   BarPlots_update env data bp = bp)
  ∧ (initialized bp = true
     ∨ (d3_defined env = true ∧ is_Some (density_container env)
        ∧ is_Some (population_container env)) →
     initialized (BarPlots_update env data bp) = true
     ∧ lastData (BarPlots_update env data bp) = data).
Proof.
  split.
  - intros Hi H. destruct bp as [ini ld dv pv]. cbn [initialized] in Hi.
    subst ini. unfold BarPlots_update, BarPlots_init. cbn [initialized].
    destruct H as [-> | [-> | ->]]; [reflexivity | |].
    + by destruct (d3_defined env).
    + by destruct (d3_defined env), (density_container env).
  - intros [Hi | (Hd & [dc Hdc] & [pc Hpc])].
    + by rewrite (BarPlots_update_initialized _ _ _ Hi).
    + by rewrite (BarPlots_update_ready env data bp dc pc Hd Hdc Hpc).
Qed.

Lemma BarPlots_update_remembers_witness :
  BarPlots_update (mkEnv [] ∅ false None None) [mkBarDatum "A" 100 10 10]
                  (mkBarPlots false [] EmptyContainer EmptyContainer)
  = mkBarPlots false [] EmptyContainer EmptyContainer
  ∧ lastData (BarPlots_update sample_env [mkBarDatum "A" 100 10 10]
                (mkBarPlots false [] EmptyContainer EmptyContainer))
    = [mkBarDatum "A" 100 10 10].
Proof.
  split.
  - apply (proj1 (BarPlots_update_remembers (mkEnv [] ∅ false None None)
                    [mkBarDatum "A" 100 10 10]
                    (mkBarPlots false [] EmptyContainer EmptyContainer)));
      [reflexivity | left; reflexivity].
  - apply (proj2 (BarPlots_update_remembers sample_env
                    [mkBarDatum "A" 100 10 10]
                    (mkBarPlots false [] EmptyContainer EmptyContainer))).
    right. split; [reflexivity |]. split; eexists; reflexivity.
Defined.

(** X19. [refresh] does nothing on a module that is not initialised or has
    no data; it never changes what the module remembers; and right after an
    [update], in the same layout, it changes nothing. *)
Theorem BarPlots_refresh_keeps (env : Env) (data : list BarDatum) (bp : BarPlots) :
  (initialized bp = false ∨ lastData bp = [] → BarPlots_refresh env bp = bp)
  ∧ lastData (BarPlots_refresh env bp) = lastData bp
  ∧ initialized (BarPlots_refresh env bp) = initialized bp
  ∧ BarPlots_refresh env (BarPlots_update env data bp)
    = BarPlots_update env data bp.
Proof.
  assert (∀ b, lastData (BarPlots_refresh env b) = lastData b
               ∧ initialized (BarPlots_refresh env b) = initialized b) as Hk.
  { intros b. unfold BarPlots_refresh.
    destruct (initialized b) eqn:Hi; cbn [andb]; [| done].
    destruct (0 <? length (lastData b))%nat; [| done].
    by rewrite (BarPlots_update_initialized _ _ _ Hi). }
  split; [| split; [apply Hk | split; [apply Hk |]]].
  - intros [H | H]; unfold BarPlots_refresh; rewrite H; [done |].
    by rewrite andb_false_r.
  - unfold BarPlots_refresh.
    destruct (initialized (BarPlots_update env data bp)) eqn:Hi; cbn [andb];
      [| done].
    destruct (0 <? _)%nat; [| done].
    rewrite (BarPlots_update_lastData _ _ _ Hi).
    apply BarPlots_update_twice.
Qed.

Lemma BarPlots_refresh_keeps_witness :
  BarPlots_refresh sample_env (mkBarPlots true [] LoadingText LoadingText)
  = mkBarPlots true [] LoadingText LoadingText.
Proof.
  apply (proj1 (BarPlots_refresh_keeps sample_env []
                  (mkBarPlots true [] LoadingText LoadingText))).
  right. reflexivity.
Defined.

(** ** Axis labels *)

(** X20. [truncateLabel] returns a text of at most [maxLength] units
    unchanged and otherwise its first [maxLength] units followed by two
    full stops; the result always starts like the text and has
    [maxLength + 2] units when the text was longer than [maxLength], so a
    text of [maxLength + 1] units grows by one. *)
Theorem truncateLabel_length {A} (dot : A) (text : list A) (maxLength : nat) :
  length (truncateLabel dot text maxLength)
  = (if (length text <=? maxLength)%nat then length text
     else maxLength + 2)%nat
  ∧ take maxLength (truncateLabel dot text maxLength) = take maxLength text
  ∧ ((length text ≤ maxLength)%nat → truncateLabel dot text maxLength = text)
  ∧ ((maxLength < length text)%nat →
     truncateLabel dot text maxLength
     = (take maxLength text ++ [dot; dot])%list).
Proof.
  unfold truncateLabel. destruct (length text <=? maxLength)%nat eqn:E.
  - apply Nat.leb_le in E.
    split; [done |]. split; [done |]. split; [done | lia].
  - apply Nat.leb_gt in E. split; [| split; [| split; [lia | done]]].
    + rewrite length_app, length_take. cbn [length]. lia.
    + rewrite take_app_le by (rewrite length_take; lia).
      by rewrite take_take, Nat.min_id.
Qed.

Lemma truncateLabel_length_witness :
  truncateLabel 46%nat [1; 2; 3; 4; 5; 6; 7; 8; 9]%nat 8
  = [1; 2; 3; 4; 5; 6; 7; 8; 46; 46]%nat.
Proof.
  apply (proj2 (proj2 (proj2 (truncateLabel_length 46%nat
                                 [1; 2; 3; 4; 5; 6; 7; 8; 9]%nat 8)))).
  cbn. lia.
Defined.

(** ** Average latitude *)

Lemma Coords_nested_ind (P : Coords → Prop) :
  (∀ lng lat more, P (Position lng lat more)) →
  (∀ items, Forall P items → P (CoordArray items)) →
  ∀ c, P c.
Proof.
  intros HP HA. fix IH 1. intros [lng lat more | items]; [apply HP |].
  apply HA. induction items as [|c items IHitems]; constructor;
    [apply IH | exact IHitems].
Qed.

Lemma processCoords_spec c : ∀ acc,
  processCoords c acc
  = (foldl fl_add acc.1 (coords_latitudes c),
     (acc.2 + length (coords_latitudes c))%nat).
Proof.
  induction c as [lng lat more | items IH] using Coords_nested_ind;
    intros [t n]; cbn [processCoords coords_latitudes fst snd].
  - cbn [foldl length]. f_equal. lia.
  - revert t n. induction IH as [|c items Hc _ IHitems]; intros t n;
      cbn [foldl fmap list_fmap mjoin list_join].
    + cbn [foldl length]. f_equal. lia.
    + rewrite Hc, IHitems. cbn [fst snd].
      rewrite foldl_app, length_app. f_equal. symmetry. apply Nat.add_assoc.
Qed.

(** X21. [getAverageLatitude] is 0 for a geometry without any position.
    Otherwise the nesting of the arrays plays no part: the result is the
    double-precision sum of the latitudes of all positions, added from 0
    in document order, divided in double precision by their number. *)
Theorem getAverageLatitude_flat (coords : Coords) :
  (coords_latitudes coords = [] → getAverageLatitude coords = 0%Q)
  ∧ (coords_latitudes coords ≠ [] →
     getAverageLatitude coords
     = fl_div (fl_sum (coords_latitudes coords))
              (inject_Z (Z.of_nat (length (coords_latitudes coords))))).
Proof.
  unfold getAverageLatitude. rewrite processCoords_spec. cbn [fst snd].
  rewrite Nat.add_0_l. split.
  - intros ->. reflexivity.
  - intros Hne.
    assert (0 < length (coords_latitudes coords))%nat as Hpos.
    { destruct (coords_latitudes coords); [done | cbn; lia]. }
    by rewrite (proj2 (Nat.ltb_lt _ _) Hpos).
Qed.

Lemma getAverageLatitude_flat_witness :
  getAverageLatitude (CoordArray [CoordArray []; CoordArray [CoordArray []]])
  = 0%Q
  ∧ getAverageLatitude
      (CoordArray [CoordArray [Position 121 (45 # 2) []];
                   CoordArray [CoordArray [Position 122 (47 # 2) []]]])
    = fl_div (fl_sum [(45 # 2)%Q; (47 # 2)%Q]) 2.
Proof.
  split.
  - apply (proj1 (getAverageLatitude_flat
                    (CoordArray [CoordArray []; CoordArray [CoordArray []]]))).
    reflexivity.
  - apply (proj2 (getAverageLatitude_flat
                    (CoordArray [CoordArray [Position 121 (45 # 2) []];
                                 CoordArray [CoordArray
                                               [Position 122 (47 # 2) []]]]))).
    discriminate.
Defined.

(** The result is not the mean of the decimal figures: three positions at
    latitude 0.1 give 0.10000000000000002, above every one of them. *)
Example latitude_sum_in_doubles :
  let ring := CoordArray [CoordArray [Position 121 (1 # 10) [];
                                      Position 122 (1 # 10) [];
                                      Position 123 (1 # 10) []]] in
  (getAverageLatitude ring == 7205759403792795 # 72057594037927936)%Q
  ∧ (1 # 10 < getAverageLatitude ring)%Q.
Proof. split; by vm_compute. Qed.

(** ** Insertion-ordered maps *)

Section MapLemmas.
Context {V : Type}.
Implicit Types (m : list (string * V)) (k : string).

Lemma Map_get_update k k' init (f : V → V) m :
  Map_get k' (Map_update k init f m)
  = if decide (k = k') then Some (f (default init (Map_get k m)))
    else Map_get k' m.
Proof.
  induction m as [|[k0 v] m IH]; cbn [Map_update Map_get].
  - destruct (decide (k = k')); [done | done].
  - destruct (decide (k0 = k)) as [-> | Hne]; cbn [Map_get].
    + destruct (decide (k = k')); [done | done].
    + destruct (decide (k0 = k')) as [-> | Hne'].
      * by rewrite decide_False by congruence.
      * rewrite IH. by destruct (decide (k = k')).
Qed.

Lemma Map_keys_update k init (f : V → V) m :
  (Map_update k init f m).*1 = Set_add k m.*1.
Proof.
  unfold Set_add. induction m as [|[k0 v] m IH]; cbn [Map_update fmap list_fmap fst].
  - rewrite (proj2 (Set_has_false [] k)); [done | apply not_elem_of_nil].
  - destruct (decide (k0 = k)) as [-> | Hne]; cbn [fmap list_fmap fst].
    + rewrite (proj2 (Set_has_true _ k)); [done | apply list_elem_of_here].
    + rewrite IH. destruct (Set_has m.*1 k) eqn:E.
      * apply Set_has_true in E.
        rewrite (proj2 (Set_has_true (k0 :: m.*1) k)); [done | by right].
      * apply Set_has_false in E.
        rewrite (proj2 (Set_has_false (k0 :: m.*1) k)); [done |].
        rewrite not_elem_of_cons. split; [congruence | done].
Qed.

Lemma Map_get_elem_of m k v :
  NoDup m.*1 → (k, v) ∈ m ↔ Map_get k m = Some v.
Proof.
  induction m as [|[k0 v0] m IH]; cbn [Map_get fmap list_fmap fst].
  - intros _. rewrite elem_of_nil. split; [done | done].
  - intros [Hk0 Hnd]%NoDup_cons. rewrite elem_of_cons.
    destruct (decide (k0 = k)) as [-> | Hne].
    + split.
      * intros [[= ->] | Hin]; [done |].
        exfalso. apply Hk0. apply list_elem_of_fmap. by exists (k, v).
      * intros [= ->]. by left.
    + rewrite <- (IH Hnd). split; [intros [[= -> ->] | ?]; done | auto].
Qed.

Lemma Map_get_keys m k : is_Some (Map_get k m) ↔ k ∈ m.*1.
Proof.
  induction m as [|[k0 v0] m IH]; cbn [Map_get fmap list_fmap fst].
  - rewrite elem_of_nil. split; [by intros [? ?] | done].
  - rewrite elem_of_cons. destruct (decide (k0 = k)) as [-> | Hne].
    + split; [by left | eauto].
    + rewrite IH. split; [auto | intros [-> | ?]; done].
Qed.
End MapLemmas.

(** ** County buttons *)

Lemma countyData_snoc geo gf :
  countyData (geo ++ [gf])
  = Map_update (COUNTYNAME (gf_properties gf)) (mkCountyData [] [])
      (λ cd, mkCountyData
               (latitudes cd ++ [getAverageLatitude (gf_coordinates gf)])
               (townships cd ++ [FULLNAME (gf_properties gf)]))
      (countyData geo).
Proof. unfold countyData. by rewrite foldl_app. Qed.

Lemma county_features_snoc geo gf c :
  county_features (geo ++ [gf]) c
  = (county_features geo c
     ++ if decide (COUNTYNAME (gf_properties gf) = c) then [gf] else [])%list.
Proof.
  unfold county_features. rewrite filter_app.
  destruct (decide (COUNTYNAME (gf_properties gf) = c)).
  - by rewrite (filter_cons_True _ gf []).
  - by rewrite (filter_cons_False _ gf []).
Qed.

Lemma countyData_get geo c :
  Map_get c (countyData geo)
  = match county_features geo c with
    | [] => None
    | fs =>
        Some (mkCountyData
                ((λ gf, getAverageLatitude (gf_coordinates gf)) <$> fs)
                ((λ gf, FULLNAME (gf_properties gf)) <$> fs))
    end.
Proof.
  induction geo as [|gf geo IH] using rev_ind; [done |].
  rewrite countyData_snoc, Map_get_update, county_features_snoc.
  destruct (decide (COUNTYNAME (gf_properties gf) = c)) as [-> | Hne].
  - rewrite IH. destruct (county_features geo c) as [|g0 fs]; [done |].
    cbn [default latitudes townships app fmap list_fmap].
    by rewrite !fmap_app.
  - rewrite IH, app_nil_r. done.
Qed.

Lemma countyData_NoDup geo : NoDup (countyData geo).*1.
Proof.
  induction geo as [|gf geo IH] using rev_ind; [apply NoDup_nil_2 |].
  rewrite countyData_snoc, Map_keys_update. by apply NoDup_Set_add.
Qed.

Lemma countyData_keys geo c :
  c ∈ (countyData geo).*1
  ↔ ∃ gf, gf ∈ geo ∧ COUNTYNAME (gf_properties gf) = c.
Proof.
  rewrite <- Map_get_keys, countyData_get. split.
  - destruct (county_features geo c) as [|gf fs] eqn:E; [by intros [? ?] |].
    intros _. exists gf.
    assert (gf ∈ county_features geo c) as Hin by (rewrite E; left).
    unfold county_features in Hin. by apply list_elem_of_filter in Hin as [? ?].
  - intros (gf & Hin & Hc).
    assert (gf ∈ county_features geo c) as Hf.
    { unfold county_features. by apply list_elem_of_filter. }
    destruct (county_features geo c); [by apply elem_of_nil in Hf | eauto].
Qed.

Lemma descending_sort_by_latitude l : descending avgLat (Array_sort by_latitude l).
Proof.
  apply Array_sort_sorted.
  - intros a b c Hab Hbc. by apply Qle_trans with (avgLat b).
  - intros x y H%Qlt_bool_true. unfold by_latitude in H. lra.
  - intros x y H%Qlt_bool_false. unfold by_latitude in H. lra.
Qed.

Lemma sortedCounties_elem geo e :
  e ∈ sortedCounties geo
  ↔ ∃ cd, Map_get (c_name e) (countyData geo) = Some cd
          ∧ e = mkCountyEntry (c_name e) (average (latitudes cd)) (townships cd).
Proof.
  unfold sortedCounties. rewrite Array_sort_perm, list_elem_of_fmap. split.
  - intros ([k cd] & -> & Hin). exists cd. cbn [c_name fst snd].
    split; [| done]. by apply Map_get_elem_of; [apply countyData_NoDup |].
  - intros (cd & Hget & He). exists (c_name e, cd). split; [done |].
    by apply Map_get_elem_of; [apply countyData_NoDup |].
Qed.

Lemma filter_fmap_county (geo : list GeoFeature) c :
  filter (λ f, COUNTYNAME f = c) (gf_properties <$> geo)
  = gf_properties <$> county_features geo c.
Proof.
  unfold county_features. induction geo as [|gf geo IH]; [done |].
  cbn [fmap list_fmap].
  destruct (decide (COUNTYNAME (gf_properties gf) = c)).
  - rewrite !filter_cons_True by done. cbn [fmap list_fmap]. by rewrite <- IH.
  - by rewrite !filter_cons_False.
Qed.

(** X22. [updateCountyButtons] makes one button per county of the map, no
    county twice, ordered by descending average latitude, the latitude of a
    county being the mean of the average latitudes of its regions.  A button
    carries the check mark exactly when every region of its county is
    selected, which is the test by which [selectCounty] decides to
    deselect. *)
Theorem county_buttons (env : Env) (geo : list GeoFeature) (st : State) :
  features env = gf_properties <$> geo →
  NoDup (cb_name <$> updateCountyButtons geo (selectedTownships st))
  ∧ (∀ c, c ∈ cb_name <$> updateCountyButtons geo (selectedTownships st)
          ↔ ∃ f, f ∈ features env ∧ COUNTYNAME f = c)
  ∧ (∀ b, b ∈ updateCountyButtons geo (selectedTownships st) →
          cb_selected b = allSelected env (cb_name b) st)
  ∧ cb_name <$> updateCountyButtons geo (selectedTownships st)
    = c_name <$> sortedCounties geo
  ∧ descending avgLat (sortedCounties geo)
  ∧ (∀ e, e ∈ sortedCounties geo →
          avgLat e
          = average ((λ gf, getAverageLatitude (gf_coordinates gf))
                       <$> county_features geo (c_name e))).
Proof.
  intros Henv.
  assert (cb_name <$> updateCountyButtons geo (selectedTownships st)
          = c_name <$> sortedCounties geo) as Hnames.
  { unfold updateCountyButtons. rewrite <- list_fmap_compose.
    by apply list_fmap_ext. }
  assert (c_name <$> sortedCounties geo ≡ₚ (countyData geo).*1) as Hperm.
  { unfold sortedCounties. rewrite Array_sort_perm, <- list_fmap_compose.
    by erewrite list_fmap_ext. }
  assert (∀ e, e ∈ sortedCounties geo →
               c_townships e
               = (λ gf, FULLNAME (gf_properties gf))
                   <$> county_features geo (c_name e)
               ∧ avgLat e
                 = average ((λ gf, getAverageLatitude (gf_coordinates gf))
                              <$> county_features geo (c_name e))) as Hentry.
  { intros e (cd & Hget & ->)%sortedCounties_elem. cbn [c_name] in *.
    rewrite countyData_get in Hget.
    destruct (county_features geo (c_name e)) as [|g0 fs]; [done |].
    injection Hget as <-. done. }
  split; [rewrite Hnames, Hperm; apply countyData_NoDup |].
  split.
  { intros c. rewrite Hnames, Hperm, countyData_keys, Henv. split.
    - intros (gf & Hin & Hc). exists (gf_properties gf).
      split; [| done]. apply list_elem_of_fmap. eauto.
    - intros (f & (gf & -> & Hin)%list_elem_of_fmap & Hc). eauto. }
  split.
  { intros b (e & -> & He)%list_elem_of_fmap. cbn [cb_selected cb_name].
    unfold allSelected, countyTownships.
    rewrite Henv, filter_fmap_county, <- list_fmap_compose.
    by rewrite (proj1 (Hentry e He)). }
  split; [done |]. split; [apply descending_sort_by_latitude |].
  intros e He. apply (Hentry e He).
Qed.

Lemma county_buttons_witness :
  updateCountyButtons sample_map (selectedTownships sample_AB)
  = [mkCountyButton "Y" false; mkCountyButton "X" true]
  ∧ NoDup (cb_name <$> updateCountyButtons sample_map
                         (selectedTownships sample_AB)).
Proof.
  split; [vm_compute; reflexivity |].
  apply (county_buttons sample_env sample_map sample_AB). vm_compute.
  reflexivity.
Defined.

(** ** The list of selected regions *)

Lemma byCounty_snoc env sel x :
  byCounty env (sel ++ [x])
  = match find_feature env x with
    | Some feature =>
        Map_update (COUNTYNAME feature) []
          (λ items,
             (items ++ [mkListItem x (TOWNNAME feature)
                          (populationData env !! x)])%list)
          (byCounty env sel)
    | None => byCounty env sel
    end.
Proof. unfold byCounty. by rewrite foldl_app. Qed.

Lemma county_items_snoc env c sel x :
  county_items env c (sel ++ [x])
  = (county_items env c sel
     ++ match find_feature env x with
        | Some feature =>
            if decide (COUNTYNAME feature = c)
            then [mkListItem x (TOWNNAME feature) (populationData env !! x)]
            else []
        | None => []
        end)%list.
Proof.
  unfold county_items. rewrite omap_app. f_equal. cbn [omap list_omap].
  destruct (find_feature env x) as [f|]; [| done].
  by destruct (decide (COUNTYNAME f = c)).
Qed.

Lemma byCounty_get env sel c :
  Map_get c (byCounty env sel)
  = match county_items env c sel with
    | [] => None
    | items => Some items
    end.
Proof.
  induction sel as [|x sel IH] using rev_ind; [done |].
  rewrite byCounty_snoc, county_items_snoc.
  destruct (find_feature env x) as [f|]; [| by rewrite app_nil_r, IH].
  rewrite Map_get_update.
  destruct (decide (COUNTYNAME f = c)) as [-> | Hne].
  - rewrite IH. by destruct (county_items env _ sel).
  - by rewrite app_nil_r, IH.
Qed.

Lemma byCounty_NoDup env sel : NoDup (byCounty env sel).*1.
Proof.
  induction sel as [|x sel IH] using rev_ind; [apply NoDup_nil_2 |].
  rewrite byCounty_snoc. destruct (find_feature env x); [| done].
  rewrite Map_keys_update. by apply NoDup_Set_add.
Qed.

Lemma descending_sort_by_count (l : list (string * list ListItem)) :
  descending (λ e, inject_Z (Z.of_nat (length e.2))) (Array_sort by_count l).
Proof.
  apply Array_sort_sorted.
  - intros a b c Hab Hbc.
    by apply Qle_trans with (inject_Z (Z.of_nat (length b.2))).
  - intros x y H%Qlt_bool_true. unfold by_count in H.
    rewrite <- Zle_Qle. change 0%Q with (inject_Z 0) in H.
    rewrite <- Zlt_Qlt in H. lia.
  - intros x y H%Qlt_bool_false. unfold by_count in H.
    rewrite <- Zle_Qle. change 0%Q with (inject_Z 0) in H.
    rewrite <- Zle_Qle in H. lia.
Qed.

Lemma county_items_names env c sel :
  li_fullname <$> county_items env c sel
  = filter (λ x, COUNTYNAME <$> find_feature env x = Some c) sel.
Proof.
  unfold county_items. induction sel as [|x sel IH]; [done |].
  cbn [omap list_omap]. destruct (find_feature env x) as [f|] eqn:E.
  - destruct (decide (COUNTYNAME f = c)) as [Hc | Hc].
    + rewrite filter_cons_True by (rewrite E; cbn; by f_equal).
      cbn [fmap list_fmap li_fullname]. by rewrite <- IH.
    + rewrite filter_cons_False by (rewrite E; cbn; congruence). apply IH.
  - rewrite filter_cons_False by (by rewrite E). apply IH.
Qed.

(** X23. [updateSelectedList] shows the empty message exactly when nothing
    is selected.  Otherwise it shows one group per county that has a
    selected region with a feature, no county twice, the larger groups
    first; the group of a county lists exactly the selected regions whose
    feature is of that county, in selection order, each with its district
    name and its population record when it has one; a group is expanded
    exactly when its county is among the expanded ones handed over. *)
Theorem selected_list_groups
    (env : Env) (expandedCounties sel : list string) :
  (sel = [] → updateSelectedList env expandedCounties sel = EmptyMessage)
  ∧ (sel ≠ [] →
     ∃ groups,
       updateSelectedList env expandedCounties sel = CountyGroups groups
       ∧ NoDup (cg_county <$> groups)
       ∧ descending (λ g, inject_Z (Z.of_nat (length (cg_items g)))) groups
       ∧ (∀ c, c ∈ cg_county <$> groups ↔ county_items env c sel ≠ [])
       ∧ ∀ g, g ∈ groups →
           cg_items g = county_items env (cg_county g) sel
           ∧ li_fullname <$> cg_items g
             = filter (λ x, COUNTYNAME <$> find_feature env x
                            = Some (cg_county g)) sel
           ∧ cg_expanded g = Set_has expandedCounties (cg_county g)).
Proof.
  split; [by intros -> |]. intros Hne. unfold updateSelectedList.
  rewrite bool_decide_eq_false_2 by (by destruct sel).
  eexists. split; [reflexivity |].
  set (sorted := Array_sort by_count (byCounty env sel)).
  assert (sorted ≡ₚ byCounty env sel) as Hperm by apply Array_sort_perm.
  assert (∀ e, e ∈ sorted → e.2 = county_items env e.1 sel ∧ e.2 ≠ []) as He.
  { intros [c items] Hin. rewrite Hperm in Hin.
    apply Map_get_elem_of in Hin; [| apply byCounty_NoDup].
    rewrite byCounty_get in Hin. cbn [fst snd].
    destruct (county_items env c sel); [done |]. by injection Hin as <-. }
  assert (cg_county
            <$> ((λ e : string * list ListItem,
                    mkCountyGroup e.1 (Set_has expandedCounties e.1) e.2)
                   <$> sorted) = sorted.*1) as Hnames.
  { rewrite <- list_fmap_compose. by apply list_fmap_ext. }
  split; [rewrite Hnames, Hperm; apply byCounty_NoDup |].
  split.
  { unfold descending.
    eapply StronglySorted_fmap; [| apply descending_sort_by_count].
    intros a b Hab. exact Hab. }
  split.
  { intros c. rewrite Hnames, Hperm, <- Map_get_keys, byCounty_get.
    destruct (county_items env c sel) as [|i l].
    - split; [by intros [? ?] | done].
    - split; [done | eauto]. }
  intros g (e & -> & Hin)%list_elem_of_fmap.
  cbn [cg_items cg_county cg_expanded].
  destruct (He e Hin) as [Hitems _].
  split; [done |]. split; [| done].
  rewrite Hitems. apply county_items_names.
Qed.

Lemma selected_list_groups_witness :
  ∃ groups,
    updateSelectedList sample_env ["Y"] ["C"; "A"; "B"; "Z"] = CountyGroups groups
    ∧ cg_county <$> groups = ["X"; "Y"].
Proof.
  destruct (selected_list_groups sample_env ["Y"] ["C"; "A"; "B"; "Z"])
    as [_ H].
  destruct H as (groups & Hv & _); [discriminate |].
  exists groups. split; [exact Hv |].
  vm_compute in Hv. injection Hv as <-. reflexivity.
Defined.

Lemma toggleCountyGroup_twice g : toggleCountyGroup (toggleCountyGroup g) = g.
Proof. destruct g as [c e i]. unfold toggleCountyGroup. cbn. by rewrite negb_involutive. Qed.

(** ** More on the page *)

(** X24. With an empty selection [updateUI] hides the summary block and
    does not rewrite its three figures: they keep the totals of the last
    non-empty selection. *)
Theorem hidden_summary_keeps_figures (env : Env) (st : State) :
  selectedTownships st = [] →
  summary_stats_display (page (updateUI env st)) = false
  ∧ stat_population (page (updateUI env st)) = stat_population (page st)
  ∧ stat_area (page (updateUI env st)) = stat_area (page st)
  ∧ stat_density (page (updateUI env st)) = stat_density (page st).
Proof.
  destruct st as [sel layers t last [c v p a d e bp ib]].
  cbn [selectedTownships page stat_population stat_area stat_density].
  intros ->. unfold updateUI.
  rewrite updateStats_page_hidden by done.
  by rewrite updateExportButton_page, updateBarPlots_page.
Qed.

Lemma hidden_summary_keeps_figures_witness :
  stat_population (page (clearAllSelections sample_env sample_AB)) = 500
  ∧ summary_stats_display (page (clearAllSelections sample_env sample_AB))
    = false.
Proof.
  unfold clearAllSelections.
  destruct (hidden_summary_keeps_figures sample_env
              (set_selection []
                 (foldl (λ m fullname,
                           alter (setStyle_border BORDER_UNSELECTED) fullname m)
                        (townshipLayers sample_AB) (selectedTownships sample_AB))
                 sample_AB) eq_refl) as (H1 & H2 & _).
  split; [rewrite H2; vm_compute; reflexivity | exact H1].
Defined.

(** X25. When the region names are pairwise distinct, select-all from a
    selection without repetition and without dangling names leaves as many
    selected regions as the dataset has features: the count shown is
    total / total. *)
Theorem selectAll_count (env : Env) (st : State) :
  NoDup (region_names env) →
  NoDup (selectedTownships st) →
  no_dangling env st →
  stat_count (page (selectAllTownships env st))
  = (totalTownships env, totalTownships env).
Proof.
  intros Hnames Hsel Hd.
  assert (stat_count (page (selectAllTownships env st))
          = (length (selectedTownships (selectAllTownships env st)),
             totalTownships env)) as ->.
  { unfold selectAllTownships at 1.
    destruct (updateUI_fields env
                (foldl (λ s f, selectTownship env (FULLNAME f) false s) st
                       (features env))) as (-> & _ & _).
    unfold selectAllTownships. by rewrite selected_updateUI. }
  f_equal. unfold totalTownships.
  rewrite <- (length_fmap FULLNAME (features env)).
  apply Permutation_length, NoDup_Permutation; [| done |].
  - apply (NoDup_handle env EvSelectAll st Hsel).
  - intros x.
    pose proof (selectAllTownships_selection env st) as H.
    assert (x ∈ selection (selectAllTownships env st)
            ↔ x ∈ selection st ∪ region_set env) as Hx by (by rewrite H).
    unfold selection, region_set in Hx.
    rewrite elem_of_union, !elem_of_list_to_set in Hx. rewrite Hx.
    split; [| auto]. intros [Hin | Hin]; [| done].
    apply (elem_of_list_to_set (C := gset string)), Hd.
    by apply elem_of_list_to_set.
Qed.

Lemma selectAll_count_witness :
  stat_count (page (selectAllTownships sample_env sample_A)) = (3%nat, 3%nat).
Proof.
  apply (selectAll_count sample_env sample_A).
  - apply (bool_decide_unpack _). vm_compute. exact I.
  - apply (bool_decide_unpack _). vm_compute. exact I.
  - unfold no_dangling. apply (bool_decide_unpack _). vm_compute. exact I.
Defined.

(** X26. [BarPlots.init] is idempotent and never forgets the last data.
    When it initialises the module it draws no bars: each container shows
    the placeholder prompt, or the loading text when it has no size. *)
Theorem BarPlots_init_once (env : Env) (bp : BarPlots) :
  BarPlots_init env (BarPlots_init env bp) = BarPlots_init env bp
  ∧ lastData (BarPlots_init env bp) = lastData bp
  ∧ (initialized bp = false → initialized (BarPlots_init env bp) = true →
     (density_bar_plot (BarPlots_init env bp) = PlaceholderText
      ∨ density_bar_plot (BarPlots_init env bp) = LoadingText)
     ∧ (population_bar_plot (BarPlots_init env bp) = PlaceholderText
        ∨ population_bar_plot (BarPlots_init env bp) = LoadingText)).
Proof.
  destruct bp as [ini ld dv pv]. unfold BarPlots_init. cbn [initialized].
  destruct ini; [by repeat split |].
  destruct (d3_defined env); cbn [negb]; [| by repeat split].
  destruct (density_container env) as [[wd hd]|]; [| by repeat split].
  destruct (population_container env) as [[wp hp]|]; [| by repeat split].
  cbn [initialized lastData density_bar_plot population_bar_plot].
  split; [done |]. split; [done |]. intros _ _.
  unfold renderChart. cbn [length]. rewrite bool_decide_eq_true_2 by done.
  split.
  - destruct (Qle_bool wd 0 || Qle_bool hd 0); auto.
  - destruct (Qle_bool wp 0 || Qle_bool hp 0); auto.
Qed.

Lemma BarPlots_init_once_witness :
  density_bar_plot
    (BarPlots_init sample_env (mkBarPlots false [] EmptyContainer EmptyContainer))
  = PlaceholderText.
Proof.
  destruct (BarPlots_init_once sample_env
              (mkBarPlots false [] EmptyContainer EmptyContainer))
    as (_ & _ & H).
  destruct (H eq_refl eq_refl) as [[H1 | H1] _]; [exact H1 |].
  vm_compute in H1. discriminate H1.
Defined.
